(** * AI Research Assistant: the upload pipeline and the [process-audio] step

    A shallow embedding of the upload page's [handleUpload] and of the
    [process-audio] edge function ([serve], [generateMockTranscript],
    [extractKeyPoints], [generateTags]), together with the columns of the
    migration that they read and write.

    Conventions.
    - A JavaScript string is the list of its UTF-16 code units.
    - [Math.random()] is an explicit argument: a rational [r], of which the
      statements that need it assume [0 <= r < 1]. The index of the
      template and the duration are computed from it exactly; the
      confidence score is computed as the code computes it, in binary64
      doubles, and stored as the database reads its JSON text.
    - [String.prototype.toLowerCase] is a parameter of the development.
    - Every call to the hosted database, the object store, the completion
      endpoint and the function runtime takes its outcome from an
      environment record: the call is carried out, or it fails with a
      message and leaves the store as it was. The function's own settings
      for the database ([SUPABASE_URL], [SUPABASE_SERVICE_ROLE_KEY]) are
      taken to be in place. *)

From Stdlib Require Import String Ascii Bool Arith ZArith NArith QArith Qround Qpower Lia Lqa List.
From Stdlib Require Import DecimalString Permutation.
Import ListNotations.
Local Open Scope list_scope.

(** ** JavaScript strings *)

Module JS.

Definition jsstring := list N.

(** An ASCII literal as a JavaScript string. *)
Definition str (s : string) : jsstring :=
  map N_of_ascii (list_ascii_of_string s).

Definition jsstring_eq_dec : forall a b : jsstring, {a = b} + {a <> b} :=
  list_eq_dec N.eq_dec.

Definition eqb (a b : jsstring) : bool :=
  if jsstring_eq_dec a b then true else false.

(** [WhiteSpace] and [LineTerminator] code points, the ones [trim] strips. *)
Definition is_space (c : N) : bool :=
  existsb (N.eqb c)
    [9; 10; 11; 12; 13; 32; 160; 5760; 8232; 8233; 8239; 8287; 12288; 65279]%N
  || (N.leb 8192 c && N.leb c 8202).

Fixpoint trimStart (s : jsstring) : jsstring :=
  match s with
  | c :: s' => if is_space c then trimStart s' else s
  | [] => []
  end.

Definition trimEnd (s : jsstring) : jsstring := rev (trimStart (rev s)).

Definition trim (s : jsstring) : jsstring := trimEnd (trimStart s).

Fixpoint startsWith (s p : jsstring) : bool :=
  match p, s with
  | [], _ => true
  | _ :: _, [] => false
  | a :: p', b :: s' => N.eqb a b && startsWith s' p'
  end.

(** [s.includes(sub)] *)
Fixpoint includes (s sub : jsstring) : bool :=
  startsWith s sub ||
  match s with
  | [] => false
  | _ :: s' => includes s' sub
  end.

(** [s.replace(pat, rep)] with a string pattern: the first occurrence only.
    (The replacements used below contain no [$], so no substitution
    pattern is involved.) *)
Fixpoint replace (s pat rep : jsstring) : jsstring :=
  if startsWith s pat then rep ++ skipn (length pat) s
  else match s with
       | [] => []
       | c :: s' => c :: replace s' pat rep
       end.

(** [s.replace(/[...]/g, '')]: every code unit of the class is removed. *)
Definition removeAll (cls : list N) (s : jsstring) : jsstring :=
  filter (fun c => negb (existsb (N.eqb c) cls)) s.

(** [s.split(sep)] for a separator of one code unit. *)
Fixpoint split (sep : N) (s : jsstring) : list jsstring :=
  match s with
  | [] => [[]]
  | c :: s' =>
      if N.eqb c sep then [] :: split sep s'
      else match split sep s' with
           | w :: ws => (c :: w) :: ws
           | [] => [[c]]
           end
  end.

(** [arr.slice(0, n)] *)
Definition slice0 {A} (n : nat) (l : list A) : list A := firstn n l.

(** [Math.floor] on an exact value. *)
Definition floor (q : Q) : Z := Qfloor q.

(** [arr[i]] for an integer index; [None] is [undefined]. *)
Definition index {A} (l : list A) (i : Z) : option A :=
  if (i <? 0)%Z then None else nth_error l (Z.to_nat i).

(** A value interpolated in a template literal. *)
Definition interpolate (v : option jsstring) : jsstring :=
  match v with
  | Some s => s
  | None => str "undefined"
  end.

(** ASCII-only lower-casing, used to run the definitions on examples; the
    theorems hold for whatever [toLowerCase] is. *)
Definition ascii_toLowerCase (s : jsstring) : jsstring :=
  map (fun c => if (N.leb 65 c && N.leb c 90)%bool then (c + 32)%N else c) s.

Definition newline : N := 10%N.
Definition bullet : N := 8226%N.   (* U+2022 *)
Definition hyphen : N := 45%N.
Definition asterisk : N := 42%N.
Definition full_stop : N := 46%N.

End JS.

Import JS.

(** ** The pure helpers of [process-audio] *)

Definition template0 : jsstring := str
"Interviewer: Thank you for joining us today. Could you start by telling us about your company's current market position?

Interviewee: Absolutely. We've been operating in the B2B software space for about 8 years now, and we've seen significant growth, especially in the last two years. Our recurring revenue has grown by 150% year-over-year, and we're currently serving over 2,000 enterprise clients.

Interviewer: That's impressive growth. What would you say are the main drivers behind this success?

Interviewee: I think there are three key factors. First, we identified a gap in the market early on - businesses were struggling with data integration across multiple platforms. Second, our team has deep domain expertise, with most of our engineers having 10+ years of experience in enterprise software. And third, we've been very focused on customer success and retention.

Interviewer: What challenges are you currently facing as you scale?

Interviewee: The main challenge is talent acquisition. We're growing so fast that we need to double our engineering team in the next 12 months, but finding qualified candidates is extremely difficult in today's market. We're also facing increased competition from larger players who are starting to notice our success.

Interviewer: How do you see the competitive landscape evolving?

Interviewee: We expect consolidation in our space within the next 2-3 years. The larger tech companies are acquiring smaller players, which creates both threats and opportunities for us. We need to either scale quickly enough to compete directly or position ourselves as an attractive acquisition target.

Interviewer: What are your funding needs and how would you use additional capital?

Interviewee: We're looking to raise $50M in Series B funding. The primary use would be scaling our sales and engineering teams, with about 60% going to talent acquisition, 25% to product development, and 15% to market expansion. We see a clear path to $100M ARR within 24 months with the right resources.".

Definition template1 : jsstring := str
"Interviewer: Let's discuss your company's financial performance over the past few years.

Interviewee: Our financials have been quite strong. We achieved profitability in year 3, which is relatively early for a SaaS company. Our gross margins are around 85%, and we've maintained an efficient CAC to LTV ratio of 1:5.

Interviewer: Can you walk us through your revenue model?

Interviewee: We operate on a subscription model with three tiers: Basic at $500/month, Professional at $2,000/month, and Enterprise starting at $10,000/month. About 70% of our revenue comes from the Professional tier, which targets mid-market companies. Our net revenue retention is 125%, indicating strong expansion within existing accounts.

Interviewer: What are the biggest risks you see for your business?

Interviewee: There are several risks we monitor closely. Technology risk is significant - our industry moves fast, and we need to continuously innovate to stay relevant. Regulatory changes, especially around data privacy, could impact our operations. And there's always the risk of new entrants with significant funding disrupting the market.

Interviewer: How do you approach product development and innovation?

Interviewee: We follow a data-driven approach. We spend a lot of time with our customers understanding their pain points. Our product roadmap is primarily driven by customer feedback and usage analytics. We also allocate about 20% of our engineering resources to experimental features and emerging technologies.

Interviewer: What's your international expansion strategy?

Interviewee: We're currently focused on the North American market, but we see significant opportunities in Europe and Asia-Pacific. We plan to enter the European market next year, starting with the UK and Germany. The regulatory environment in Europe is more complex, but the market opportunity is substantial.".

Definition template2 : jsstring := str
"Interviewer: Could you describe the management team and organizational structure?

Interviewee: Our leadership team brings together complementary skills. I handle strategy and business development, our CTO leads product and engineering, and our VP of Sales manages all revenue operations. We've kept the organization relatively flat to maintain agility, but we're starting to add middle management as we scale.

Interviewer: How do you maintain company culture during rapid growth?

Interviewee: Culture is something we think about constantly. We've documented our core values and ensure they're part of every hiring decision. We do quarterly all-hands meetings and maintain an open communication policy. The challenge is preserving the startup mentality while adding necessary processes and structure.

Interviewer: What role does technology play in your competitive advantage?

Interviewee: Technology is at the core of everything we do. We've built proprietary algorithms for data processing that give us a significant speed advantage over competitors. Our API response times are 3x faster than the industry average, and our uptime is 99.9%. We also have several patents pending on our core technology.

Interviewer: How do you see the next 5 years for your company?

Interviewee: We have an ambitious vision. In 5 years, we want to be the dominant platform in our category, with $500M+ in annual revenue. We see opportunities for horizontal expansion into adjacent markets and potentially strategic acquisitions. Going public is definitely on our roadmap, likely in the 3-4 year timeframe.

Interviewer: What would make this partnership successful from your perspective?

Interviewee: We're looking for more than just capital. We want a partner who understands our market and can provide strategic guidance as we scale. Access to your portfolio companies for potential partnerships or customers would be valuable. Most importantly, we want investors who share our long-term vision and won't pressure us for short-term returns at the expense of sustainable growth.".

Definition templates : list jsstring := [template0; template1; template2].

(** [generateMockTranscript(fileName)], with the value [r] of its call to
    [Math.random()]. *)
Definition generateMockTranscript (fileName : jsstring) (r : Q) : jsstring :=
  let randomTemplate :=
    index templates (floor (r * inject_Z (Z.of_nat (length templates)))) in
  str "File: " ++ fileName ++ [newline; newline] ++ str "Transcript:"
    ++ [newline; newline] ++ interpolate randomTemplate.

Definition has_bullet (line : jsstring) : bool :=
  includes line [bullet] || includes line [hyphen] || includes line [asterisk].

(** The body of the [forEach] of [extractKeyPoints]: one line, pushed or not. *)
Definition scan_line (keyPoints : list jsstring) (line : jsstring)
  : list jsstring :=
  if has_bullet line then
    keyPoints ++ [trim (removeAll [bullet; hyphen; asterisk] line)]
  else if (50 <? length line) && (length line <? 200) then
    keyPoints ++ [trim line]
  else keyPoints.

Definition extractKeyPoints (aiSummary : jsstring) : list jsstring :=
  let lines :=
    filter (fun line => 0 <? length (trim line)) (split newline aiSummary) in
  let keyPoints := fold_left scan_line lines [] in
  if length keyPoints =? 0 then
    let sentences :=
      filter (fun s => 30 <? length (trim s)) (split full_stop aiSummary) in
    map (fun s => trim s ++ [full_stop]) (slice0 5 sentences)
  else slice0 8 keyPoints.

Definition commonBusinessTags : list jsstring :=
  map str
    ["growth"; "revenue"; "market-position"; "competition"; "scaling";
     "funding"; "technology"; "team"; "strategy"; "risks"; "opportunities";
     "product-development"; "customer-success"; "market-expansion";
     "partnerships"]%string.

Definition additionalTags : list jsstring :=
  map str ["business-model"; "financial-performance"; "leadership"]%string.

(** ** The relational store and the object store

    The columns of [public.transcripts] and [public.insights] that the code
    reads or writes, and the private bucket [audio-files]. *)

Record Transcript := {
  id : jsstring;                       (* uuid PRIMARY KEY *)
  user_id : jsstring;
  title : jsstring;
  file_name : jsstring;
  transcript_text : option jsstring;   (* text, nullable *)
  audio_duration : option Z;           (* integer, nullable *)
  processed_at : option jsstring       (* timestamptz, nullable *)
}.

Record Insight := {
  transcript_id : jsstring;
  insight_user_id : jsstring;
  summary_text : jsstring;
  key_points : list jsstring;
  tags : list jsstring;
  confidence_score : Q                 (* numeric(3,2) with a CHECK *)
}.

Record File := { name : jsstring; bytes : list N }.

Record Store := {
  transcripts : list Transcript;
  insights : list Insight;
  audio_files : list (jsstring * File)
}.

Definition empty_store : Store :=
  {| transcripts := []; insights := []; audio_files := [] |}.

(** A value of the column type [numeric(3,2)]: rounded to two decimals, ties
    away from zero; [None] when it needs more than one digit before the
    point. *)
Definition round_half_away (q : Q) : Z :=
  if Qle_bool 0 q then Qfloor (q + (1 # 2)) else (- Qfloor (- q + (1 # 2)))%Z.

Definition numeric_3_2 (q : Q) : option Q :=
  let n := round_half_away (q * 100) in
  if (Z.abs n <? 1000)%Z then Some (Qred (n # 100)) else None.

(** [CHECK (confidence_score >= 0 AND confidence_score <= 1)] *)
Definition confidence_check (q : Q) : bool := Qle_bool 0 q && Qle_bool q 1.

(** ** Doubles

    A double is a rational. [binary64 q] is the double nearest to [q], ties
    to the even significand: the value of a literal, and of a sum or a
    product of two doubles once rounded. Numbers too large or too small for
    the exponent of a double are not met here and not told apart. *)

(** [floor (log2 q)], [q] positive. *)
Definition binade (q : Q) : Z :=
  let e := (Z.log2 (Qnum q) - Z.log2 (Zpos (Qden q)))%Z in
  if Qle_bool (2 ^ e) q then e else (e - 1)%Z.

Definition round_half_even (m : Q) : Z :=
  let f := Qfloor m in
  match Qcompare (m - inject_Z f) (1 # 2) with
  | Lt => f
  | Gt => (f + 1)%Z
  | Eq => if Z.even f then f else (f + 1)%Z
  end.

(** A significand of 53 bits. *)
Definition nearest_double (q : Q) : Q :=
  let ulp := 2 ^ (binade q - 52) in
  Qred (inject_Z (round_half_even (q / ulp)) * ulp).

Definition binary64 (q : Q) : Q :=
  match Qnum q with
  | Z0 => 0
  | Zpos _ => nearest_double q
  | Zneg _ => - nearest_double (- q)
  end.

(** [JSON.stringify] of a double [x] that is written without an exponent:
    the decimal with the fewest digits that reads back as [x]; of two with
    as many digits the nearer to [x], and the even one when they are as
    near. [decimal_at x k] looks among the decimals with [k] digits after
    the point. A number that is no double is written as it is. *)
Definition decimal_at (x : Q) (k : nat) : option Q :=
  let scale := inject_Z (10 ^ Z.of_nat k) in
  let s := Qfloor (x * scale) in
  let below := Qred (inject_Z s / scale) in
  let above := Qred (inject_Z (s + 1) / scale) in
  match Qeq_bool (binary64 below) x, Qeq_bool (binary64 above) x with
  | true, true =>
      Some match Qcompare (x - below) (above - x) with
           | Lt => below
           | Gt => above
           | Eq => if Z.even s then below else above
           end
  | true, false => Some below
  | false, true => Some above
  | false, false => None
  end.

Fixpoint shortest_decimal (x : Q) (k fuel : nat) : Q :=
  match fuel with
  | O => x
  | S fuel' =>
      match decimal_at x k with
      | Some y => y
      | None => shortest_decimal x (S k) fuel'
      end
  end.

Definition JSON_number (x : Q) : Q := shortest_decimal x 0 18.

(** Half the distance from 1 to the next double. *)
Definition unit_roundoff : Q := 1 # 9007199254740992.

(** ** Values, requests and responses *)

Inductive jsvalue :=
| JUndefined
| JNull
| JBool (b : bool)
| JNumber (q : Q)
| JString (s : jsstring)
| JObject.

(** [!v] is [negb (truthy v)]. *)
Definition truthy (v : jsvalue) : bool :=
  match v with
  | JUndefined | JNull => false
  | JBool b => b
  | JNumber q => negb (Qeq_bool q 0)
  | JString s => negb (length s =? 0)
  | JObject => true
  end.


(** What [await req.json()] followed by the destructuring gives: it throws,
    or binds [transcriptId] (to [JUndefined] when the key is absent). *)
Inductive Body :=
| BodyThrows (msg : jsstring)
| BodyJson (transcriptId : jsvalue).

Record Request := { method : jsstring; body : Body }.

Inductive Payload :=
| NoBody
| Success (success : bool) (message : jsstring) (transcript : jsstring)
| Failure (error : jsstring).

Record Response := { status : Z; payload : Payload }.

(** ** Effects *)

Inductive Call :=
| InsertTranscript
| DeleteTranscript (transcriptId : jsstring)
| UploadObject (key : jsstring)
| InvokeFunction (transcriptId : jsstring)
| SelectTranscript (transcriptId : jsvalue)
| UpdateTranscript (transcriptId : jsvalue)
| FetchCompletion
| InsertInsight.

Inductive Event :=
| Called (c : Call)
| Toast (title description : jsstring) (destructive : bool)
| Navigate (path : jsstring)
| ConsoleError (label msg : jsstring)     (* the page's console *)
| ServerLog (label msg : jsstring).       (* the function's console *)

Record World := {
  db : Store;
  uploading : bool;
  processing : bool;
  events : list Event          (* oldest first *)
}.

Inductive Result (A : Type) :=
| Ok (a : A)
| Thrown (msg : jsstring).
Arguments Ok {A} a.
Arguments Thrown {A} msg.

(** Computations that read and write the world and may throw. *)
Definition Eff (A : Type) : Type := World -> Result A * World.

Definition ret {A} (a : A) : Eff A := fun w => (Ok a, w).

Definition bind {A B} (m : Eff A) (k : A -> Eff B) : Eff B :=
  fun w => match m w with
           | (Ok a, w') => k a w'
           | (Thrown msg, w') => (Thrown msg, w')
           end.

Definition throw {A} (msg : jsstring) : Eff A := fun w => (Thrown msg, w).

(** [try { m } catch (error) { h error.message }] *)
Definition try_catch {A} (m : Eff A) (h : jsstring -> Eff A) : Eff A :=
  fun w => match m w with
           | (Ok a, w') => (Ok a, w')
           | (Thrown msg, w') => h msg w'
           end.

Notation "x <- m ;; k" := (bind m (fun x => k))
  (at level 61, m at next level, right associativity).
Notation "m ;;; k" := (bind m (fun _ => k))
  (at level 61, right associativity).

Definition emit (e : Event) : Eff unit :=
  fun w => (Ok tt, {| db := db w; uploading := uploading w;
                      processing := processing w;
                      events := events w ++ [e] |}).

Definition get_db : Eff Store := fun w => (Ok (db w), w).

Definition put_db (s : Store) : Eff unit :=
  fun w => (Ok tt, {| db := s; uploading := uploading w;
                      processing := processing w; events := events w |}).

Definition setUploading (b : bool) : Eff unit :=
  fun w => (Ok tt, {| db := db w; uploading := b;
                      processing := processing w; events := events w |}).

Definition setProcessing (b : bool) : Eff unit :=
  fun w => (Ok tt, {| db := db w; uploading := uploading w;
                      processing := b; events := events w |}).

Definition when (b : bool) (m : Eff unit) : Eff unit :=
  if b then m else ret tt.

(** ** The [process-audio] function *)

Inductive CompletionJson :=
| Malformed (msg : jsstring)             (* [json()] or [choices[0]] throws *)
| Content (content : option jsstring).   (* [choices[0]?.message?.content] *)

Inductive Completion :=
| FetchThrows (msg : jsstring)
| Responded (status : Z) (json : CompletionJson).

(** Everything one run of the function takes from outside. *)
Record ServeEnv := {
  select_fault : option jsstring;
  store_msg : jsstring;            (* text of the store's own rejections *)
  random_template : Q;             (* the three calls to [Math.random()] *)
  random_duration : Q;
  random_confidence : Q;
  now : jsstring;                  (* [new Date().toISOString()] *)
  update_fault : option jsstring;
  LOVABLE_API_KEY : option jsstring;
  completion : Completion;
  insert_fault : option jsstring;
  uuid_of : jsstring -> option jsstring;  (* a text read as a uuid *)
  text_of : jsvalue -> jsstring           (* [String(v)], [v] not a string *)
}.

(** The column [id] is a [uuid]. The filter [.eq('id', v)] travels as the
    text [id=eq.${v}]; the database reads that text as a uuid, whatever its
    spelling, and compares it with the ids of the rows, which it writes in
    one canonical form ([uuid_of] gives that form). A text that is no uuid
    selects no row: the reply is then an error. *)
Definition filter_text (env : ServeEnv) (v : jsvalue) : jsstring :=
  match v with
  | JString s => s
  | _ => text_of env v
  end.

Definition id_is (env : ServeEnv) (v : jsvalue) (t : Transcript) : bool :=
  match uuid_of env (filter_text env v) with
  | Some u => eqb (id t) u
  | None => false
  end.

Definition with_transcripts (s : Store) (ts : list Transcript) : Store :=
  {| transcripts := ts; insights := insights s;
     audio_files := audio_files s |}.

Definition with_insights (s : Store) (l : list Insight) : Store :=
  {| transcripts := transcripts s; insights := l;
     audio_files := audio_files s |}.

Definition with_audio_files (s : Store) (l : list (jsstring * File)) : Store :=
  {| transcripts := transcripts s; insights := insights s;
     audio_files := l |}.

(** [.from('transcripts').select('*').eq('id', v).single()] *)
Definition select_single (env : ServeEnv) (v : jsvalue)
  : Eff (Transcript + jsstring) :=
  emit (Called (SelectTranscript v)) ;;;
  s <- get_db ;;
  ret match select_fault env with
      | Some msg => inr msg
      | None =>
          match filter (id_is env v) (transcripts s) with
          | [t] => inl t
          | _ => inr (store_msg env)
          end
      end.

Definition processed (text : jsstring) (at_ : jsstring) (duration : Z)
    (t : Transcript) : Transcript :=
  {| id := id t; user_id := user_id t; title := title t;
     file_name := file_name t;
     transcript_text := Some text;
     audio_duration := Some duration;
     processed_at := Some at_ |}.

(** [.from('transcripts').update({...}).eq('id', v)]; the result is the
    [error] of the reply. *)
Definition update_transcript (env : ServeEnv) (v : jsvalue)
    (text at_ : jsstring) (duration : Z) : Eff (option jsstring) :=
  emit (Called (UpdateTranscript v)) ;;;
  match update_fault env with
  | Some msg => ret (Some msg)
  | None =>
      s <- get_db ;;
      put_db (with_transcripts s
                (map (fun t => if id_is env v t
                               then processed text at_ duration t
                               else t)
                     (transcripts s))) ;;;
      ret None
  end.

(** [.from('insights').insert({...})]: the row travels as JSON; it is
    stored when its [transcript_id] is a JSON string that reads as a uuid,
    the transcript with that id exists and the score, read from its JSON
    text, fits its column. *)
Definition insert_insight (env : ServeEnv) (transcriptId : jsvalue)
    (user summary : jsstring) (keyPoints tags_ : list jsstring) (score : Q)
  : Eff (option jsstring) :=
  emit (Called InsertInsight) ;;;
  match insert_fault env with
  | Some msg => ret (Some msg)
  | None =>
      s <- get_db ;;
      match transcriptId, numeric_3_2 (JSON_number score) with
      | JString text, Some c =>
          match uuid_of env text with
          | Some tid =>
              if existsb (fun t => eqb (id t) tid) (transcripts s)
                 && confidence_check c
              then
                put_db (with_insights s
                          (insights s ++
                           [{| transcript_id := tid; insight_user_id := user;
                               summary_text := summary;
                               key_points := keyPoints;
                               tags := tags_; confidence_score := c |}])) ;;;
                ret None
              else ret (Some (store_msg env))
          | None => ret (Some (store_msg env))
          end
      | _, _ => ret (Some (store_msg env))
      end
  end.

(** Line 47: [Math.floor(Math.random() * 3600) + 300]. *)
Definition random_audio_duration (r : Q) : Z := (floor (r * 3600) + 300)%Z.

(** Line 98: [0.85 + Math.random() * 0.15], in doubles: the two literals
    are the doubles nearest to them, and the product and the sum are
    rounded. *)
Definition random_confidence_score (r : Q) : Q :=
  binary64 (binary64 (85 # 100) + binary64 (r * binary64 (15 # 100))).

Definition response_ok (status : Z) : bool :=
  (200 <=? status)%Z && (status <=? 299)%Z.

Section Pipeline.

Variable toLowerCase : jsstring -> jsstring.

Definition tag_matches (summaryLower tag : jsstring) : bool :=
  includes summaryLower (replace tag (str "-") (str " "))
  || includes summaryLower (replace tag (str "-") (str "")).

Definition generateTags (aiSummary : jsstring) : list jsstring :=
  let summaryLower := toLowerCase aiSummary in
  let relevantTags := filter (tag_matches summaryLower) commonBusinessTags in
  let relevantTags :=
    if length relevantTags <? 3
    then relevantTags ++ slice0 (3 - length relevantTags) additionalTags
    else relevantTags in
  slice0 6 relevantTags.

(** Lines 60-103: the body of the inner [try]. *)
Definition request_insights (env : ServeEnv) (transcriptId : jsvalue)
    (transcript : Transcript) : Eff unit :=
  emit (Called FetchCompletion) ;;;
  match completion env with
  | FetchThrows msg => throw msg
  | Responded st json =>
      if response_ok st then
        match json with
        | Malformed msg => throw msg
        | Content content =>
            let aiSummary := match content with Some s => s | None => [] end in
            let keyPoints := extractKeyPoints aiSummary in
            let tags_ := generateTags aiSummary in
            insightsError <-
              insert_insight env transcriptId (user_id transcript) aiSummary
                keyPoints tags_
                (random_confidence_score (random_confidence env)) ;;
            match insightsError with
            | Some msg =>
                emit (ServerLog (str "Failed to create insights:") msg)
            | None => ret tt
            end
        end
      else ret tt
  end.

Definition key_configured (env : ServeEnv) : bool :=
  match LOVABLE_API_KEY env with
  | Some k => negb (length k =? 0)
  | None => false
  end.

(** Lines 16-121: the body of the outer [try]. *)
Definition process_audio (req : Request) (env : ServeEnv) : Eff Response :=
  transcriptId <-
    match body req with
    | BodyThrows msg => throw msg
    | BodyJson v => ret v
    end ;;
  when (negb (truthy transcriptId))
       (throw (str "Transcript ID is required")) ;;;
  fetched <- select_single env transcriptId ;;
  transcript <-
    match fetched with
    | inr msg => throw (str "Failed to fetch transcript: " ++ msg)
    | inl t => ret t
    end ;;
  let mockTranscript :=
    generateMockTranscript (file_name transcript) (random_template env) in
  updateError <-
    update_transcript env transcriptId mockTranscript (now env)
      (random_audio_duration (random_duration env)) ;;
  match updateError with
  | Some msg => throw (str "Failed to update transcript: " ++ msg)
  | None => ret tt
  end ;;;
  when (key_configured env)
       (try_catch (request_insights env transcriptId transcript)
          (fun aiError =>
             emit (ServerLog (str "AI processing failed:") aiError))) ;;;
  ret {| status := 200;
         payload := Success true (str "Audio processed successfully")
                      mockTranscript |}.

Definition serve (req : Request) (env : ServeEnv) : Eff Response :=
  if eqb (method req) (str "OPTIONS") then
    ret {| status := 200; payload := NoBody |}
  else
    try_catch (process_audio req env)
      (fun error =>
         emit (ServerLog (str "Error processing audio:") error) ;;;
         ret {| status := 500; payload := Failure error |}).

(** ** The upload page *)

Record User := { uid : jsstring }.       (* [user.id] *)

(** What [supabase.functions.invoke] meets: the request does not reach the
    function, or the function runs in the given environment. *)
Inductive Invocation :=
| NotDelivered (msg : jsstring)
| Delivered (env : ServeEnv).

Record UploadEnv := {
  new_id : jsstring;                     (* [gen_random_uuid()] *)
  insert_transcript_fault : option jsstring;
  reject_msg : jsstring;                 (* text of the stores' own rejections *)
  upload_fault : option jsstring;
  delete_fault : option jsstring;
  invocation : Invocation
}.

(** [.from('transcripts').insert({user_id, title, file_name}).select().single()] *)
Definition insert_transcript (env : UploadEnv) (owner title_ fname : jsstring)
  : Eff (Transcript + jsstring) :=
  emit (Called InsertTranscript) ;;;
  match insert_transcript_fault env with
  | Some msg => ret (inr msg)
  | None =>
      s <- get_db ;;
      if existsb (fun t => eqb (id t) (new_id env)) (transcripts s)
      then ret (inr (reject_msg env))          (* primary key *)
      else
        let row := {| id := new_id env; user_id := owner; title := title_;
                      file_name := fname; transcript_text := None;
                      audio_duration := None; processed_at := None |} in
        put_db (with_transcripts s (transcripts s ++ [row])) ;;;
        ret (inl row)
  end.

(** [.storage.from('audio-files').upload(key, file)] *)
Definition upload_object (env : UploadEnv) (key : jsstring) (file : File)
  : Eff (option jsstring) :=
  emit (Called (UploadObject key)) ;;;
  match upload_fault env with
  | Some msg => ret (Some msg)
  | None =>
      s <- get_db ;;
      if existsb (fun o => eqb (fst o) key) (audio_files s)
      then ret (Some (reject_msg env))         (* no upsert *)
      else
        put_db (with_audio_files s (audio_files s ++ [(key, file)])) ;;;
        ret None
  end.

(** [.from('transcripts').delete().eq('id', tid)]; the insights of a deleted
    transcript go with it ([ON DELETE CASCADE]). *)
Definition delete_transcript (env : UploadEnv) (tid : jsstring)
  : Eff (option jsstring) :=
  emit (Called (DeleteTranscript tid)) ;;;
  match delete_fault env with
  | Some msg => ret (Some msg)
  | None =>
      s <- get_db ;;
      put_db {| transcripts :=
                  filter (fun t => negb (eqb (id t) tid)) (transcripts s);
                insights :=
                  filter (fun i => negb (eqb (transcript_id i) tid))
                         (insights s);
                audio_files := audio_files s |} ;;;
      ret None
  end.

(** [.functions.invoke('process-audio', {body: {transcriptId: tid}})]: the
    [error] of the reply, set when the function was not reached or did not
    answer 2xx. *)
Definition invoke (env : UploadEnv) (tid : jsstring) : Eff (option jsstring) :=
  emit (Called (InvokeFunction tid)) ;;;
  match invocation env with
  | NotDelivered msg => ret (Some msg)
  | Delivered senv =>
      resp <- serve {| method := str "POST";
                       body := BodyJson (JString tid) |} senv ;;
      ret (if response_ok (status resp) then None
           else Some (str "Edge Function returned a non-2xx status code"))
  end.

(** [arr.pop()] as a value. *)
Definition pop {A} (l : list A) : option A := last (map Some l) None.

(** Lines 48-107: the body of the [try] of [handleUpload]. *)
Definition upload_and_process (file : File) (title_ : jsstring) (user : User)
    (env : UploadEnv) : Eff unit :=
  inserted <- insert_transcript env (uid user) (trim title_) (name file) ;;
  transcript <-
    match inserted with
    | inr msg => throw (str "Failed to create transcript record: " ++ msg)
    | inl t => ret t
    end ;;
  let fileExt := interpolate (pop (split full_stop (name file))) in
  let fileName := uid user ++ str "/" ++ id transcript ++ str "." ++ fileExt in
  uploadError <- upload_object env fileName file ;;
  match uploadError with
  | Some msg =>
      delete_transcript env (id transcript) ;;;
      throw (str "Failed to upload file: " ++ msg)
  | None => ret tt
  end ;;;
  setUploading false ;;;
  setProcessing true ;;;
  emit (Toast (str "File uploaded successfully!")
          (str "Processing your audio file for transcription...") false) ;;;
  processError <- invoke env (id transcript) ;;
  match processError with
  | Some msg =>
      emit (ConsoleError (str "Processing error:") msg) ;;;
      emit (Toast (str "Processing Error")
              (str "Audio uploaded but processing failed. Please try again later.")
              true)
  | None =>
      emit (Toast (str "Processing Complete!")
              (str "Your transcript and insights are ready for review.") false)
  end ;;;
  setProcessing false ;;;
  emit (Navigate (str "/transcripts/" ++ id transcript)).

Definition handleUpload (file : option File) (title_ : jsstring)
    (user : option User) (env : UploadEnv) : Eff unit :=
  match file, negb (length title_ =? 0), user with
  | Some file, true, Some user =>
      setUploading true ;;;
      try_catch (upload_and_process file title_ user env)
        (fun error =>
           emit (ConsoleError (str "Upload error:") error) ;;;
           emit (Toast (str "Upload Failed") error true) ;;;
           setUploading false ;;;
           setProcessing false)
  | _, _, _ =>
      emit (Toast (str "Missing Information")
              (str "Please select a file and provide a title.") true)
  end.

(** The badge of the transcript list. *)
Inductive Badge := Processing | Failed | Ready.

Definition js_truthy_opt (v : option jsstring) : bool :=
  match v with
  | Some s => negb (length s =? 0)
  | None => false
  end.

Definition getStatusBadge (t : Transcript) : Badge :=
  if negb (js_truthy_opt (processed_at t)) then Processing
  else if negb (js_truthy_opt (transcript_text t)) then Failed
  else Ready.

(** ** Reachable stores

    The store starts empty and changes only through runs of [handleUpload]
    and of [serve] (which the pipeline invokes, and which anyone may call
    with any request). *)

Definition initial_world (s : Store) : World :=
  {| db := s; uploading := false; processing := false; events := [] |}.

(** [Math.random()] returns a number in [[0, 1)]. *)
Definition unit_interval (r : Q) : Prop := 0 <= r /\ r < 1.

Definition draws_ok (env : ServeEnv) : Prop :=
  unit_interval (random_template env)
  /\ unit_interval (random_duration env)
  /\ unit_interval (random_confidence env).

Definition upload_draws_ok (env : UploadEnv) : Prop :=
  match invocation env with
  | Delivered senv => draws_ok senv
  | NotDelivered _ => True
  end.

Inductive reachable : Store -> Prop :=
| reach_empty : reachable empty_store
| reach_upload s file title_ user env :
    reachable s ->
    upload_draws_ok env ->
    reachable (db (snd (handleUpload file title_ user env (initial_world s))))
| reach_serve s req env :
    reachable s ->
    draws_ok env ->
    reachable (db (snd (serve req env (initial_world s)))).

End Pipeline.

(** ** Vocabulary of the statements *)

Arguments generateMockTranscript : simpl never.
Arguments extractKeyPoints : simpl never.
Arguments generateTags : simpl never.
Arguments str : simpl never.

(** The two lists of tags the function draws from. *)
Definition tag_vocabulary : list jsstring :=
  commonBusinessTags ++ additionalTags.

(** What one run may do to the three tables. *)
Definition updated_rows (selected : Transcript -> bool)
    (text at_ : jsstring) (d : Z) (ts : list Transcript) : list Transcript :=
  map (fun t => if selected t then processed text at_ d t else t) ts.

Definition server_event (e : Event) : bool :=
  match e with
  | Called (SelectTranscript _) | Called (UpdateTranscript _)
  | Called FetchCompletion | Called InsertInsight
  | ServerLog _ _ => true
  | _ => false
  end.

Definition fresh_row (env : UploadEnv) (owner title_ fname : jsstring)
  : Transcript :=
  {| id := new_id env; user_id := owner; title := title_;
     file_name := fname; transcript_text := None;
     audio_duration := None; processed_at := None |}.

Definition unprocessed (t : Transcript) : Prop :=
  transcript_text t = None /\ audio_duration t = None
  /\ processed_at t = None.

(** Row-wise statements about a store. *)
Definition text_iff_processed (t : Transcript) : Prop :=
  processed_at t <> None <-> transcript_text t <> None.

(** ** Sample runs *)

Module Sample.

Definition file : File :=
  {| name := str "Interview_A.mp3"; bytes := [73; 68; 51]%N |}.

Definition user : User := {| uid := str "u-1" |}.

(** A reading of texts as uuids that, as the database's, takes a letter in
    upper case and in lower case for the same digit. *)
Definition any_case (text : jsstring) : option jsstring :=
  Some (ascii_toLowerCase text).

Definition serve_env : ServeEnv :=
  {| select_fault := None;
     store_msg := str "rejected";
     random_template := 1 # 2;
     random_duration := 15 # 16;
     random_confidence := 63 # 64;
     now := str "2025-09-29T16:57:38.000Z";
     update_fault := None;
     LOVABLE_API_KEY := Some (str "key");
     completion :=
       Responded 200 (Content (Some (str "- Revenue growth is strong")));
     insert_fault := None;
     uuid_of := any_case;
     text_of := fun _ => str "[object Object]" |}.

(** Everything works. *)
Definition upload_env : UploadEnv :=
  {| new_id := str "t-1";
     insert_transcript_fault := None;
     reject_msg := str "rejected";
     upload_fault := None;
     delete_fault := None;
     invocation := Delivered serve_env |}.

(** The network goes away after the insert: the upload fails, and so does
    the delete that follows it. *)
Definition offline_env : UploadEnv :=
  {| new_id := str "t-1";
     insert_transcript_fault := None;
     reject_msg := str "rejected";
     upload_fault := Some (str "Failed to fetch");
     delete_fault := Some (str "Failed to fetch");
     invocation := NotDelivered (str "Failed to fetch") |}.

(** The upload fails, the delete goes through. *)
Definition upload_fails_env : UploadEnv :=
  {| new_id := str "t-1";
     insert_transcript_fault := None;
     reject_msg := str "rejected";
     upload_fault := Some (str "Payload too large");
     delete_fault := None;
     invocation := NotDelivered (str "Failed to fetch") |}.

(** The upload works, the function is not reached. *)
Definition unprocessed_env : UploadEnv :=
  {| new_id := str "t-1";
     insert_transcript_fault := None;
     reject_msg := str "rejected";
     upload_fault := None;
     delete_fault := None;
     invocation := NotDelivered (str "Failed to fetch") |}.

Definition post (v : jsvalue) : Request :=
  {| method := str "POST"; body := BodyJson v |}.

(** A store holding one uploaded, unprocessed transcript. *)
Definition row : Transcript :=
  {| id := str "t-1"; user_id := str "u-1"; title := str "Interview A";
     file_name := str "Interview_A.mp3"; transcript_text := None;
     audio_duration := None; processed_at := None |}.

Definition one_row : Store :=
  {| transcripts := [row];
     insights := [];
     audio_files := [(str "u-1/t-1.mp3", file)] |}.


(** A draw of [1 - 2^-52] for the score. *)
Definition top_draw_env : ServeEnv :=
  {| select_fault := None;
     store_msg := str "rejected";
     random_template := 1 # 2;
     random_duration := 15 # 16;
     random_confidence := 4503599627370495 # 4503599627370496;
     now := str "2025-09-29T16:57:38.000Z";
     update_fault := None;
     LOVABLE_API_KEY := Some (str "key");
     completion :=
       Responded 200 (Content (Some (str "- Revenue growth is strong")));
     insert_fault := None;
     uuid_of := any_case;
     text_of := fun _ => str "[object Object]" |}.

End Sample.


(** The key of the uploaded object and the store after steps 1 and 2. *)
Definition object_key (env : UploadEnv) (user : User) (file : File)
  : jsstring :=
  uid user ++ str "/" ++ new_id env ++ str "."
    ++ interpolate (pop (split full_stop (name file))).

Definition uploaded_store (s : Store) (env : UploadEnv) (user : User)
    (title_ : jsstring) (file : File) : Store :=
  with_audio_files
    (with_transcripts s
       (transcripts s
        ++ [fresh_row env (uid user) (trim title_) (name file)]))
    (audio_files s ++ [(object_key env user file, file)]).

(** The reply of the object store to the upload of [key]. *)
Definition upload_error (env : UploadEnv) (s : Store) (key : jsstring)
  : option jsstring :=
  match upload_fault env with
  | Some msg => Some msg
  | None =>
      if existsb (fun o => eqb (fst o) key) (audio_files s)
      then Some (reject_msg env) else None
  end.

(** The page's world when the function is invoked: row inserted, file
    uploaded, first toast shown. *)
Definition uploaded_world (s : Store) (env : UploadEnv) (user : User)
    (title_ : jsstring) (file : File) : World :=
  {| db := uploaded_store s env user title_ file;
     uploading := false;
     processing := true;
     events :=
       [Called InsertTranscript;
        Called (UploadObject (object_key env user file));
        Toast (str "File uploaded successfully!")
          (str "Processing your audio file for transcription...") false;
        Called (InvokeFunction (new_id env))] |}.

Definition notice_complete : list Event :=
  [Toast (str "Processing Complete!")
     (str "Your transcript and insights are ready for review.") false].

Definition notice_failed (msg : jsstring) : list Event :=
  [ConsoleError (str "Processing error:") msg;
   Toast (str "Processing Error")
     (str "Audio uploaded but processing failed. Please try again later.")
     true].

Definition is_delete (e : Event) : bool :=
  match e with
  | Called (DeleteTranscript _) => true
  | _ => false
  end.

(** ** Elementary changes of the store

    The five ways in which the code changes the store: the insert of an
    unprocessed transcript under a new id, the upload of an object under a
    new key, the delete of a transcript with its insights, the update of the
    processing step, and the insert of the insight it derives. *)

Section StoreOps.

Variable toLowerCase : jsstring -> jsstring.

Definition derived_insight (t : Transcript) (summary : jsstring) (c : Q)
  : Insight :=
  {| transcript_id := id t; insight_user_id := user_id t;
     summary_text := summary;
     key_points := extractKeyPoints summary;
     tags := generateTags toLowerCase summary;
     confidence_score := c |}.

Inductive store_op : Store -> Store -> Prop :=
| op_insert s row :
    unprocessed row ->
    existsb (fun t => eqb (id t) (id row)) (transcripts s) = false ->
    store_op s (with_transcripts s (transcripts s ++ [row]))
| op_upload s key file :
    existsb (fun o => eqb (fst o) key) (audio_files s) = false ->
    store_op s (with_audio_files s (audio_files s ++ [(key, file)]))
| op_delete s tid :
    store_op s
      {| transcripts :=
           filter (fun t => negb (eqb (id t) tid)) (transcripts s);
         insights :=
           filter (fun i => negb (eqb (transcript_id i) tid)) (insights s);
         audio_files := audio_files s |}
| op_process s selected t r_template r_duration at_ :
    filter selected (transcripts s) = [t] ->
    unit_interval r_template ->
    unit_interval r_duration ->
    store_op s
      (with_transcripts s
         (updated_rows selected
            (generateMockTranscript (file_name t) r_template) at_
            (random_audio_duration r_duration) (transcripts s)))
| op_insight s t summary r c :
    In t (transcripts s) ->
    unit_interval r ->
    numeric_3_2 (JSON_number (random_confidence_score r)) = Some c ->
    confidence_check c = true ->
    store_op s (with_insights s (insights s ++ [derived_insight t summary c])).

(** Zero or more elementary changes, one after the other. *)
Inductive store_ops : Store -> Store -> Prop :=
| ops_none s : store_ops s s
| ops_then s1 s2 s3 : store_ops s1 s2 -> store_op s2 s3 -> store_ops s1 s3.

End StoreOps.

(** What a row of a reachable store looks like: as inserted, or as the
    processing step leaves it. *)
Definition fully_processed (t : Transcript) : Prop :=
  exists r_template r_duration at_,
    unit_interval r_template
    /\ unit_interval r_duration
    /\ transcript_text t
       = Some (generateMockTranscript (file_name t) r_template)
    /\ audio_duration t = Some (random_audio_duration r_duration)
    /\ processed_at t = Some at_.

(** ** The upload page: choosing a file *)

(** [s.replace(/\.[^/.]+$/, "")]: the leftmost dot that is followed, up to
    the end of the string, by one or more code units other than ['/'] and
    ['.'] is removed together with what follows it. *)
Definition solidus : N := 47%N.
Definition low_line : N := 95%N.
Definition space : N := 32%N.

Definition not_slash_or_dot (c : N) : bool :=
  negb (N.eqb c solidus) && negb (N.eqb c full_stop).

Fixpoint removeExtension (s : jsstring) : jsstring :=
  match s with
  | [] => []
  | c :: s' =>
      if N.eqb c full_stop && negb (length s' =? 0)
         && forallb not_slash_or_dot s'
      then []
      else c :: removeExtension s'
  end.

(** [s.replace(/[-_]/g, ' ')] *)
Definition spacesForDashes (s : jsstring) : jsstring :=
  map (fun c => if N.eqb c hyphen || N.eqb c low_line then space else c) s.

(** [handleFileChange]: the new values of the states [file] and [title],
    given [e.target.files?.[0]]. *)
Definition handleFileChange (selectedFile : option File)
    (file : option File) (title_ : jsstring) : option File * jsstring :=
  match selectedFile with
  | Some f =>
      (Some f,
       if length title_ =? 0
       then spacesForDashes (removeExtension (name f))
       else title_)
  | None => (file, title_)
  end.

(** The extension [handleUpload] puts in the object key:
    [file.name.split('.').pop()]. *)
Definition fileExt (file : File) : jsstring :=
  interpolate (pop (split full_stop (name file))).

(** ** The list of transcripts *)

(** [String(n)] for an integer. *)
Definition number_to_string (n : Z) : jsstring :=
  str (DecimalString.NilZero.string_of_int (Z.to_int n)).

Module TranscriptsPage.

Section Search.

Variable toLowerCase : jsstring -> jsstring.

(** The condition of the [filter] of lines 79-84. *)
Definition matches (searchTerm : jsstring) (transcript : Transcript) : bool :=
  includes (toLowerCase (title transcript)) (toLowerCase searchTerm)
  || includes (toLowerCase (file_name transcript)) (toLowerCase searchTerm)
  || match transcript_text transcript with
     | Some text =>
         negb (length text =? 0)
         && includes (toLowerCase text) (toLowerCase searchTerm)
     | None => false
     end.

(** The value given to [setFilteredTranscripts] by the second effect. *)
Definition filteredTranscripts (searchTerm : jsstring)
    (transcripts_ : list Transcript) : list Transcript :=
  if length searchTerm =? 0 then transcripts_
  else filter (matches searchTerm) transcripts_.

End Search.

Definition formatDuration (seconds : option Z) : jsstring :=
  match seconds with
  | None => str "Unknown"
  | Some s =>
      if (s =? 0)%Z then str "Unknown"
      else
        let hours := (s / 3600)%Z in
        let minutes := (Z.rem s 3600 / 60)%Z in
        if (0 <? hours)%Z
        then number_to_string hours ++ str "h " ++ number_to_string minutes
               ++ str "m"
        else number_to_string minutes ++ str "m"
  end.

(** [transcripts.reduce((sum, t) => sum + (t.audio_duration || 0), 0)] *)
Definition totalDuration (transcripts_ : list Transcript) : Z :=
  fold_left
    (fun sum t =>
       (sum + match audio_duration t with Some d => d | None => 0 end)%Z)
    transcripts_ 0%Z.

End TranscriptsPage.

(** ** The dashboard *)

Module DashboardPage.

Definition formatDuration (seconds : Z) : jsstring :=
  let hours := (seconds / 3600)%Z in
  let minutes := (Z.rem seconds 3600 / 60)%Z in
  if (0 <? hours)%Z
  then number_to_string hours ++ str "h " ++ number_to_string minutes
         ++ str "m"
  else number_to_string minutes ++ str "m".

Record DashboardStats := {
  totalTranscripts : nat;
  totalInsights : nat;
  totalDuration : Z;
  recentTranscripts : list Transcript
}.

Record State := {
  stats : DashboardStats;
  loading : bool;
  toasts : list Event
}.

Definition initial : State :=
  {| stats := {| totalTranscripts := 0; totalInsights := 0;
                 totalDuration := 0; recentTranscripts := [] |};
     loading := true;
     toasts := [] |}.

(** The replies of the two queries when they fail. *)
Record Env := {
  transcripts_fault : option jsstring;
  insights_fault : option jsstring
}.

Section Fetch.

(** [.order('created_at', {ascending: false})]: the rows carry no
    [created_at] here, so the order the database gives them is kept
    abstract. *)
Variable newest_first : list Transcript -> list Transcript.

Definition owned_by (u : User) (t : Transcript) : bool :=
  eqb (user_id t) (uid u).

Definition recent_query (u : User) (s : Store) : list Transcript :=
  firstn 5 (newest_first (filter (owned_by u) (transcripts s))).

Definition insights_query (u : User) (s : Store) : list Insight :=
  filter (fun i => eqb (insight_user_id i) (uid u)) (insights s).

Definition load_failed (st : State) : State :=
  {| stats := stats st;
     loading := false;
     toasts :=
       toasts st
       ++ [Toast (str "Error loading dashboard")
             (str "Failed to load dashboard data. Please try again.") true] |}.

Definition fetchDashboardData (user : option User) (env : Env) (s : Store)
    (st : State) : State :=
  match user with
  | None => st
  | Some u =>
      match transcripts_fault env with
      | Some _ => load_failed st
      | None =>
          let transcripts_ := recent_query u s in
          match insights_fault env with
          | Some _ => load_failed st
          | None =>
              let insights_ := insights_query u s in
              {| stats :=
                   {| totalTranscripts := length transcripts_;
                      totalInsights := length insights_;
                      totalDuration :=
                        TranscriptsPage.totalDuration transcripts_;
                      recentTranscripts := transcripts_ |};
                 loading := false;
                 toasts := toasts st |}
          end
      end
  end.

End Fetch.

End DashboardPage.

(** ** The navigation bar *)

Module Layout.

Definition navigation : list (jsstring * jsstring) :=
  [(str "Dashboard", str "/");
   (str "Upload", str "/upload");
   (str "Transcripts", str "/transcripts");
   (str "Insights", str "/insights")].

(** [isActive(path)] at the location [pathname]. *)
Definition isActive (pathname path : jsstring) : bool :=
  if eqb path (str "/") then eqb pathname (str "/")
  else startsWith pathname path.

End Layout.

(** ** Replies of the store, as functions of its state *)

(** The [error] of the reply to the select of the processing step. *)
Definition select_error (env : ServeEnv) (s : Store) (v : jsvalue)
  : option jsstring :=
  match select_fault env with
  | Some msg => Some msg
  | None =>
      match filter (id_is env v) (transcripts s) with
      | [_] => None
      | _ => Some (store_msg env)
      end
  end.

(** The [error] of the reply to the insert of the upload page. *)
Definition insert_error (env : UploadEnv) (s : Store) : option jsstring :=
  match insert_transcript_fault env with
  | Some msg => Some msg
  | None =>
      if existsb (fun t => eqb (id t) (new_id env)) (transcripts s)
      then Some (reject_msg env) else None
  end.

(** The columns of a transcript that only the insert writes. *)
Definition identity (t : Transcript)
  : jsstring * jsstring * jsstring * jsstring :=
  (id t, user_id t, title t, file_name t).

Definition completion_event (e : Event) : bool :=
  match e with
  | Called FetchCompletion | Called InsertInsight => true
  | _ => false
  end.

(** The three bullet markers of [extractKeyPoints]. *)
Definition marker (c : N) : bool :=
  N.eqb c bullet || N.eqb c hyphen || N.eqb c asterisk.

(** ** More sample runs *)

Module Sample2.

(** The store after one complete run of the pipeline from the empty store. *)
Definition processed_store : Store :=
  db (snd (handleUpload ascii_toLowerCase (Some Sample.file)
             (str "Interview A") (Some Sample.user) Sample.upload_env
             (initial_world empty_store))).

(** A second submission, of the same file, that the function does not see. *)
Definition second_env : UploadEnv :=
  {| new_id := str "t-2";
     insert_transcript_fault := None;
     reject_msg := str "rejected";
     upload_fault := None;
     delete_fault := None;
     invocation := NotDelivered (str "Failed to fetch") |}.

(** The insert is refused. *)
Definition refused_env : UploadEnv :=
  {| new_id := str "t-1";
     insert_transcript_fault := Some (str "row-level security");
     reject_msg := str "rejected";
     upload_fault := None;
     delete_fault := None;
     invocation := NotDelivered (str "Failed to fetch") |}.

Definition dashboard_env : DashboardPage.Env :=
  {| DashboardPage.transcripts_fault := None;
     DashboardPage.insights_fault := None |}.

Definition dashboard_down : DashboardPage.Env :=
  {| DashboardPage.transcripts_fault := Some (str "Failed to fetch");
     DashboardPage.insights_fault := None |}.

End Sample2.

(** * Properties *)

(** ** Arithmetic on a draw *)

Lemma floor_scaled_range (r : Q) (n : positive) :
  unit_interval r ->
  (0 <= floor (r * inject_Z (Z.pos n)) < Z.pos n)%Z.
Proof.
  destruct r as [a b]; unfold unit_interval, Qle, Qlt, floor, Qfloor, Qmult, inject_Z;
    simpl Qnum; simpl Qden.
  intros [H0 H1].
  rewrite Pos.mul_1_r.
  split.
  - apply Z.div_pos; nia.
  - apply Z.div_lt_upper_bound; nia.
Qed.



(** ** [generateMockTranscript] *)


Lemma generateMockTranscript_nonempty (fileName : jsstring) (r : Q) :
  generateMockTranscript fileName r <> [].
Proof.
  unfold generateMockTranscript.
  change (str "File: ") with [70; 105; 108; 101; 58; 32]%N.
  discriminate.
Qed.


(** ** [extractKeyPoints] and [generateTags] *)

Lemma slice0_length_le {A} (n : nat) (l : list A) :
  (length (slice0 n l) <= n)%nat.
Proof. apply firstn_le_length. Qed.

Lemma slice0_incl {A} (n : nat) (l : list A) (x : A) :
  In x (slice0 n l) -> In x l.
Proof.
  unfold slice0. intros Hin.
  rewrite <- (firstn_skipn n l). apply in_or_app. now left.
Qed.

Lemma slice0_NoDup {A} (n : nat) (l : list A) :
  NoDup l -> NoDup (slice0 n l).
Proof.
  unfold slice0. intros Hnd.
  rewrite <- (firstn_skipn n l) in Hnd.
  now apply NoDup_app_remove_r in Hnd.
Qed.

Lemma NoDup_app_disjoint {A} (l l' : list A) (x : A) :
  NoDup (l ++ l') -> In x l -> ~ In x l'.
Proof.
  induction l as [| a l IH]; simpl; intros Hnd Hin Hin'.
  - contradiction.
  - inversion Hnd as [| ? ? Hnotin Hnd']; subst.
    destruct Hin as [-> | Hin].
    + apply Hnotin. apply in_or_app. now right.
    + now apply (IH Hnd' Hin).
Qed.

Lemma extractKeyPoints_fallback_length (aiSummary : jsstring) :
  length (fold_left scan_line
            (filter (fun line => 0 <? length (trim line))
                    (split newline aiSummary)) []) = 0%nat ->
  (length (extractKeyPoints aiSummary) <= 5)%nat.
Proof.
  intros H0. unfold extractKeyPoints. rewrite H0. cbn [Nat.eqb].
  rewrite length_map. apply slice0_length_le.
Qed.

Lemma extractKeyPoints_length (aiSummary : jsstring) :
  (length (extractKeyPoints aiSummary) <= 8)%nat.
Proof.
  unfold extractKeyPoints.
  destruct (length _ =? 0).
  - rewrite length_map.
    pose proof (slice0_length_le 5
      (filter (fun s => 30 <? length (trim s)) (split full_stop aiSummary))).
    lia.
  - apply slice0_length_le.
Qed.

Lemma tag_vocabulary_NoDup : NoDup tag_vocabulary.
Proof.
  assert (H : forall l : list jsstring,
             (fix nodupb (l : list jsstring) : bool :=
                match l with
                | [] => true
                | x :: l' => negb (existsb (eqb x) l') && nodupb l'
                end) l = true -> NoDup l).
  { induction l as [| x l IH]; intros Hb.
    - constructor.
    - apply andb_prop in Hb as [Hx Hl].
      constructor; [| now apply IH].
      intros Hin. apply negb_true_iff in Hx.
      assert (Hex : existsb (eqb x) l = true).
      { apply existsb_exists. exists x. split; [assumption |].
        unfold eqb. destruct (jsstring_eq_dec x x); congruence. }
      congruence. }
  apply H. vm_compute. reflexivity.
Qed.

Section TagProperties.

Variable toLowerCase : jsstring -> jsstring.

Lemma padded_tags_shape (aiSummary : jsstring) :
  exists rel k,
    rel = filter (tag_matches (toLowerCase aiSummary)) commonBusinessTags
    /\ generateTags toLowerCase aiSummary
       = slice0 6 (rel ++ slice0 k additionalTags)
    /\ (3 <= length (rel ++ slice0 k additionalTags))%nat.
Proof.
  exists (filter (tag_matches (toLowerCase aiSummary)) commonBusinessTags).
  unfold generateTags.
  set (rel := filter _ commonBusinessTags).
  destruct (length rel <? 3) eqn:Hlt.
  - exists (3 - length rel)%nat. repeat split.
    apply Nat.ltb_lt in Hlt.
    rewrite length_app. unfold slice0. rewrite length_firstn.
    change (length additionalTags) with 3%nat. lia.
  - exists 0%nat. repeat split.
    + unfold slice0 at 2. simpl. now rewrite app_nil_r.
    + apply Nat.ltb_ge in Hlt. rewrite length_app. lia.
Qed.

(** C8. For every response text, [extractKeyPoints] returns at most 8
    items, and [generateTags], after its padding with the fixed fillers,
    returns at least 3 and at most 6 tags. *)
Theorem key_points_and_tags_lengths (aiSummary : jsstring) :
  (length (extractKeyPoints aiSummary) <= 8)%nat
  /\ (3 <= length (generateTags toLowerCase aiSummary))%nat
  /\ (length (generateTags toLowerCase aiSummary) <= 6)%nat.
Proof.
  split; [apply extractKeyPoints_length |].
  destruct (padded_tags_shape aiSummary) as (rel & k & _ & -> & Hlen).
  split; [| apply slice0_length_le].
  unfold slice0 at 1. rewrite length_firstn. lia.
Qed.

(** C10. Every tag returned by [generateTags] is one of the 18 words of the
    vocabulary (the 15 business tags and the 3 fillers), and no tag is
    returned twice. *)
Theorem generateTags_in_vocabulary_NoDup (aiSummary : jsstring) :
  length tag_vocabulary = 18%nat
  /\ tag_vocabulary
     = map str
         ["growth"; "revenue"; "market-position"; "competition"; "scaling";
          "funding"; "technology"; "team"; "strategy"; "risks";
          "opportunities"; "product-development"; "customer-success";
          "market-expansion"; "partnerships"; "business-model";
          "financial-performance"; "leadership"]%string
  /\ (forall tag, In tag (generateTags toLowerCase aiSummary) ->
                  In tag tag_vocabulary)
  /\ NoDup (generateTags toLowerCase aiSummary).
Proof.
  split; [reflexivity |]. split; [reflexivity |].
  destruct (padded_tags_shape aiSummary) as (rel & k & Hrel & -> & _).
  assert (Hincl : forall tag, In tag (rel ++ slice0 k additionalTags) ->
                              In tag tag_vocabulary).
  { intros tag Hin. unfold tag_vocabulary.
    apply in_app_iff in Hin as [Hin | Hin]; apply in_or_app.
    - left. subst rel. now apply filter_In in Hin as [Hin _].
    - right. now apply slice0_incl in Hin. }
  split.
  - intros tag Hin. apply Hincl. now apply slice0_incl in Hin.
  - apply slice0_NoDup.
    pose proof tag_vocabulary_NoDup as Hnd. unfold tag_vocabulary in Hnd.
    apply NoDup_app.
    + subst rel. apply NoDup_filter. now apply NoDup_app_remove_r in Hnd.
    + apply slice0_NoDup. now apply NoDup_app_remove_l in Hnd.
    + intros x Hx Hy. apply (NoDup_app_disjoint _ _ x Hnd).
      * subst rel. now apply filter_In in Hx as [Hx _].
      * now apply slice0_incl in Hy.
Qed.

End TagProperties.

(** ** Runs of [serve] *)


Ltac run_eff :=
  cbv [bind ret throw try_catch emit get_db put_db when setUploading
       setProcessing];
  cbn [db events uploading processing fst snd transcripts insights
       audio_files with_transcripts with_insights with_audio_files negb].

Ltac case_step :=
  match goal with
  | |- context [match ?x with _ => _ end] =>
      lazymatch x with
      | match _ with _ => _ end => fail
      | (match _ with _ => _ end) _ => fail
      | _ => destruct x eqn:?
      end
  end.

Section ServeProperties.

Variable toLowerCase : jsstring -> jsstring.

Lemma serve_effect (req : Request) (env : ServeEnv) (w : World) :
  exists resp w',
    serve toLowerCase req env w = (Ok resp, w')
    /\ uploading w' = uploading w
    /\ processing w' = processing w
    /\ audio_files (db w') = audio_files (db w)
    /\ (exists evs, events w' = events w ++ evs
                    /\ forallb server_event evs = true)
    /\ (transcripts (db w') = transcripts (db w)
        \/ exists v fname,
             transcripts (db w')
             = updated_rows (id_is env v)
                 (generateMockTranscript fname (random_template env))
                 (now env)
                 (random_audio_duration (random_duration env))
                 (transcripts (db w)))
    /\ (insights (db w') = insights (db w)
        \/ exists i c,
             insights (db w') = insights (db w) ++ [i]
             /\ numeric_3_2 (JSON_number
                          (random_confidence_score (random_confidence env)))
                = Some c
             /\ confidence_check c = true
             /\ confidence_score i = c).
Proof.
  unfold serve, process_audio, request_insights, select_single,
    update_transcript, insert_insight.
  run_eff.
  repeat (case_step; run_eff).
  all: eexists; eexists; split; [reflexivity |]; run_eff.
  all: rewrite <- ?app_assoc.
  all: repeat split.
  all: try (eexists; split; [reflexivity | reflexivity]).
  all: try (left; reflexivity).
  all: try (right; eexists; eexists; reflexivity).
  all: try (right; eexists; eexists; repeat split; eauto;
            match goal with H : (_ && _) = true |- _ =>
              apply andb_prop in H; apply H end).
  exists []. now rewrite app_nil_r.
Qed.


Lemma serve_returns (req : Request) (env : ServeEnv) (w : World) :
  exists resp, fst (serve toLowerCase req env w) = Ok resp.
Proof.
  destruct (serve_effect req env w) as (resp & w' & E & _).
  exists resp. now rewrite E.
Qed.

Lemma updated_rows_ids selected text at_ d ts :
  map id (updated_rows selected text at_ d ts) = map id ts.
Proof.
  unfold updated_rows. rewrite map_map. apply map_ext.
  intros t. now destruct (selected t).
Qed.

Lemma serve_keeps_ids (req : Request) (env : ServeEnv) (w : World) :
  map id (transcripts (db (snd (serve toLowerCase req env w))))
  = map id (transcripts (db w)).
Proof.
  destruct (serve_effect req env w) as (resp & w' & E & _ & _ & _ & _ & Ht & _).
  rewrite E. cbn [snd].
  destruct Ht as [-> | (v & text & ->)]; [reflexivity |].
  apply updated_rows_ids.
Qed.

(** Row-wise properties that [serve] keeps: [P] on transcripts has to
    survive the update of the processing step, [R] on insights has to hold
    of a row as the [insights] table stores it. *)
Lemma serve_preserves (P : Transcript -> Prop) (R : Insight -> Prop)
    (req : Request) (env : ServeEnv) (w : World) :
  (forall t fname,
      P t ->
      P (processed (generateMockTranscript fname (random_template env))
           (now env) (random_audio_duration (random_duration env)) t)) ->
  (forall i c,
      numeric_3_2 (JSON_number
                          (random_confidence_score (random_confidence env))) = Some c ->
      confidence_check c = true ->
      confidence_score i = c ->
      R i) ->
  Forall P (transcripts (db w)) ->
  Forall R (insights (db w)) ->
  Forall P (transcripts (db (snd (serve toLowerCase req env w))))
  /\ Forall R (insights (db (snd (serve toLowerCase req env w)))).
Proof.
  intros HP HR HPs HRs.
  destruct (serve_effect req env w)
    as (resp & w' & E & _ & _ & _ & _ & Ht & Hi).
  rewrite E. cbn [snd]. split.
  - destruct Ht as [-> | (v & text & ->)]; [assumption |].
    unfold updated_rows. apply Forall_map.
    eapply Forall_impl; [| exact HPs].
    intros t Pt. destruct (id_is env v t); auto.
  - destruct Hi as [-> | (i & c & -> & Hc & Hchk & Hsc)]; [assumption |].
    apply Forall_app. split; [assumption |].
    constructor; [| constructor]. eapply HR; eauto.
Qed.

End ServeProperties.

(** ** Runs of [handleUpload] *)

Lemma Forall_filter_keep {A} (P : A -> Prop) (f : A -> bool) (l : list A) :
  Forall P l -> Forall P (filter f l).
Proof.
  intros H. apply Forall_forall. intros x Hx.
  apply filter_In in Hx as [Hx _].
  revert x Hx. now apply Forall_forall.
Qed.

Section UploadProperties.

Variable toLowerCase : jsstring -> jsstring.

Ltac use_serve :=
  match goal with
  | |- context [serve toLowerCase ?req ?env ?w] =>
      let resp := fresh "resp" in
      let w' := fresh "w'" in
      let E := fresh "E" in
      destruct (serve_effect toLowerCase req env w)
        as (resp & w' & E & ? & ? & ? & ? & ? & ?);
      rewrite E
  end.

Lemma handleUpload_preserves (P : Transcript -> Prop) (R : Insight -> Prop)
    (file : option File) (title_ : jsstring) (user : option User)
    (env : UploadEnv) (w : World) :
  (forall t, unprocessed t -> P t) ->
  (forall senv t fname,
      invocation env = Delivered senv ->
      P t ->
      P (processed (generateMockTranscript fname (random_template senv))
           (now senv) (random_audio_duration (random_duration senv)) t)) ->
  (forall senv i c,
      invocation env = Delivered senv ->
      numeric_3_2 (JSON_number
                          (random_confidence_score (random_confidence senv))) = Some c ->
      confidence_check c = true ->
      confidence_score i = c ->
      R i) ->
  Forall P (transcripts (db w)) ->
  Forall R (insights (db w)) ->
  Forall P (transcripts
              (db (snd (handleUpload toLowerCase file title_ user env w))))
  /\ Forall R (insights
                 (db (snd (handleUpload toLowerCase file title_ user env w)))).
Proof.
  intros Hfresh HP HR HPs HRs.
  assert (Hadd : forall owner t f,
            Forall P (transcripts (db w)
                        ++ [{| id := new_id env; user_id := owner; title := t;
                               file_name := f; transcript_text := None;
                               audio_duration := None;
                               processed_at := None |}])).
  { intros. apply Forall_app. split; [assumption |].
    constructor; [| constructor]. apply Hfresh. repeat split. }
  unfold handleUpload, upload_and_process, insert_transcript, upload_object,
    delete_transcript, invoke.
  run_eff.
  repeat (first [use_serve | case_step]; run_eff).
  all: try (split; auto using Forall_filter_keep; fail).
  all: clear E.
  all: cbn [db transcripts insights with_audio_files with_transcripts] in *.
  all: split.
  all: try match goal with
         | H : transcripts _ = _ \/ _ |- Forall _ (transcripts _) =>
             destruct H as [-> | (v & text & ->)];
             [ apply Hadd
             | unfold updated_rows; apply Forall_map;
               eapply Forall_impl; [| apply Hadd];
               intros t Pt; cbv beta;
               match goal with
               | |- context [if ?b then _ else _] => destruct b
               end; eauto ]
         | H : insights _ = _ \/ _ |- Forall _ (insights _) =>
             destruct H as [-> | (i & c & -> & ? & ? & ?)];
             [ assumption
             | apply Forall_app; split; [assumption |];
               constructor; [eapply HR; eauto | constructor] ]
         end.
Qed.

End UploadProperties.

(** ** The two random columns *)

Lemma random_audio_duration_range (r : Q) :
  unit_interval r ->
  (300 <= random_audio_duration r < 3900)%Z.
Proof.
  intros Hr. unfold random_audio_duration.
  pose proof (floor_scaled_range r 3600 Hr) as H.
  change (inject_Z 3600) with (3600 : Q) in H. lia.
Qed.

(** ** Rounding to a double *)

Lemma binade_le (q : Q) : 0 < q -> 2 ^ binade q <= q.
Proof.
  intros Hq. unfold binade.
  destruct (Qle_bool _ q) eqn:E; [now apply Qle_bool_iff |]. clear E.
  destruct q as [a b]. cbn [Qnum Qden].
  assert (Ha : (0 < a)%Z) by (unfold Qlt in Hq; simpl in Hq; lia).
  pose proof (Z.log2_spec a Ha) as [Hla _].
  pose proof (Z.log2_spec (Z.pos b) (Pos2Z.is_pos b)) as [_ Hlb].
  pose proof (Z.log2_nonneg a) as Hla0.
  pose proof (Z.log2_nonneg (Z.pos b)) as Hlb0.
  set (la := Z.log2 a) in *. set (lb := Z.log2 (Z.pos b)) in *.
  replace (la - lb - 1)%Z with (la - Z.succ lb)%Z by lia.
  rewrite Qpower_minus by discriminate.
  change 2 with (inject_Z 2).
  rewrite <- (Zpower_Qpower 2 la) by lia.
  rewrite <- (Zpower_Qpower 2 (Z.succ lb)) by lia.
  assert (HB : (0 < 2 ^ Z.succ lb)%Z) by (apply Z.pow_pos_nonneg; lia).
  apply Qle_shift_div_r.
  - change 0 with (inject_Z 0). rewrite <- Zlt_Qlt. exact HB.
  - unfold Qle, Qmult, inject_Z. cbn [Qnum Qden].
    rewrite Z.mul_1_r, Pos.mul_1_r. nia.
Qed.

Lemma round_half_even_error (m : Q) :
  m - (1 # 2) <= inject_Z (round_half_even m)
  /\ inject_Z (round_half_even m) <= m + (1 # 2).
Proof.
  unfold round_half_even.
  pose proof (Qfloor_le m) as Hlo.
  pose proof (Qlt_floor m) as Hhi.
  rewrite inject_Z_plus in Hhi. change (inject_Z 1) with 1 in Hhi.
  destruct (Qcompare _ _) eqn:E.
  - apply Qeq_alt in E.
    destruct (Z.even _); rewrite ?inject_Z_plus; change (inject_Z 1) with 1;
      split; lra.
  - apply Qlt_alt in E. split; lra.
  - apply Qgt_alt in E. rewrite inject_Z_plus. change (inject_Z 1) with 1.
    split; lra.
Qed.

(** Rounding moves a positive number by at most the fraction [2^-53] of
    it. *)
Lemma nearest_double_error (q : Q) :
  0 < q ->
  q * (1 - unit_roundoff) <= nearest_double q
  /\ nearest_double q <= q * (1 + unit_roundoff).
Proof.
  intros Hq. unfold nearest_double.
  pose proof (binade_le q Hq) as He.
  set (e := binade q) in *.
  assert (Hu : 0 < 2 ^ (e - 52)) by (apply Qpower_0_lt; reflexivity).
  assert (Hue : 2 ^ (e - 52) * 4503599627370496 == 2 ^ e).
  { rewrite Qpower_minus by discriminate.
    change (2 ^ 52) with 4503599627370496. field. }
  set (u := 2 ^ (e - 52)) in *.
  destruct (round_half_even_error (q / u)) as [Hlo Hhi].
  set (n := inject_Z (round_half_even (q / u))) in *.
  rewrite Qred_correct.
  assert (Hqu : q / u * u == q) by (field; lra).
  apply (Qmult_le_compat_r _ _ u) in Hlo; [| lra].
  apply (Qmult_le_compat_r _ _ u) in Hhi; [| lra].
  set (nu := n * u) in *.
  set (w := q / u) in *.
  unfold unit_roundoff. split; lra.
Qed.

Lemma binary64_error (q : Q) :
  0 <= q ->
  q * (1 - unit_roundoff) <= binary64 q
  /\ binary64 q <= q * (1 + unit_roundoff).
Proof.
  intros Hq. unfold binary64. destruct q as [[| a | a] b]; cbn [Qnum].
  - unfold unit_roundoff. split; unfold Qle; simpl; lia.
  - apply nearest_double_error. reflexivity.
  - exfalso. unfold Qle in Hq. simpl in Hq. lia.
Qed.

Lemma binary64_nonpos (q : Q) : q <= 0 -> binary64 q <= 0.
Proof.
  intros Hq. unfold binary64. destruct q as [[| a | a] b]; cbn [Qnum].
  - apply Qle_refl.
  - exfalso. unfold Qle in Hq. simpl in Hq. lia.
  - assert (H : 0 < - (Z.neg a # b)) by reflexivity.
    destruct (nearest_double_error _ H) as [Hlo _].
    unfold unit_roundoff in Hlo.
    set (x := nearest_double _) in *. set (y := - (Z.neg a # b)) in *. lra.
Qed.

Lemma decimal_at_round_trip (x y : Q) (k : nat) :
  decimal_at x k = Some y -> binary64 y == x.
Proof.
  unfold decimal_at.
  set (below := Qred (inject_Z (Qfloor _) / _)).
  set (above := Qred (inject_Z (Qfloor _ + 1) / _)).
  destruct (Qeq_bool (binary64 below) x) eqn:E1;
    destruct (Qeq_bool (binary64 above) x) eqn:E2;
    try discriminate.
  - destruct (Qcompare _ _); [destruct (Z.even _) | |];
      intros [= <-]; now apply Qeq_bool_eq.
  - intros [= <-]; now apply Qeq_bool_eq.
  - intros [= <-]; now apply Qeq_bool_eq.
Qed.

Lemma shortest_decimal_round_trip (x : Q) (fuel k : nat) :
  shortest_decimal x k fuel = x
  \/ binary64 (shortest_decimal x k fuel) == x.
Proof.
  revert k. induction fuel as [| fuel IH]; intros k; cbn [shortest_decimal];
    [now left |].
  destruct (decimal_at x k) as [y |] eqn:E; [| apply IH].
  right. now apply decimal_at_round_trip with k.
Qed.

(** The decimal that [JSON.stringify] writes reads back as the double. *)
Lemma JSON_number_round_trip (x : Q) :
  JSON_number x = x \/ binary64 (JSON_number x) == x.
Proof. apply shortest_decimal_round_trip. Qed.

(** The score of line 98 is within [2^-52] of [[0.85, 1.0]]. *)
Lemma random_confidence_score_range (r : Q) :
  unit_interval r ->
  (85 # 100) - (1 # 4503599627370496) <= random_confidence_score r
  /\ random_confidence_score r < 1 + (1 # 4503599627370496).
Proof.
  intros [H0 H1]. unfold random_confidence_score.
  replace (binary64 (85 # 100))
    with (7656119366529843 # 9007199254740992)
    by (vm_compute; reflexivity).
  replace (binary64 (15 # 100))
    with (5404319552844595 # 36028797018963968)
    by (vm_compute; reflexivity).
  assert (Hp : 0 <= r * (5404319552844595 # 36028797018963968)) by lra.
  destruct (binary64_error _ Hp) as [Hplo Hphi].
  set (p := binary64 (r * _)) in *. clearbody p.
  unfold unit_roundoff in *.
  assert (Hs : 0 <= (7656119366529843 # 9007199254740992) + p) by lra.
  destruct (binary64_error _ Hs) as [Hslo Hshi].
  set (s := binary64 (_ + p)) in *. clearbody s.
  unfold unit_roundoff in *. split; lra.
Qed.

Lemma JSON_confidence_score_range (r : Q) :
  unit_interval r ->
  (85 # 100) - (1 # 2251799813685248)
  <= JSON_number (random_confidence_score r)
  /\ JSON_number (random_confidence_score r) < 1 + (1 # 2251799813685248).
Proof.
  intros Hr.
  destruct (random_confidence_score_range r Hr) as [Hlo Hhi].
  set (x := random_confidence_score r) in *. clearbody x.
  destruct (JSON_number_round_trip x) as [-> | E]; [split; lra |].
  set (y := JSON_number x) in *. clearbody y.
  destruct (Qlt_le_dec 0 y) as [Hy | Hy].
  - destruct (binary64_error y (Qlt_le_weak _ _ Hy)) as [Hylo Hyhi].
    rewrite E in Hylo, Hyhi. unfold unit_roundoff in *. split; lra.
  - apply binary64_nonpos in Hy. rewrite E in Hy. lra.
Qed.

Lemma numeric_3_2_range (y c : Q) :
  845 # 1000 <= y ->
  y < 1005 # 1000 ->
  numeric_3_2 y = Some c ->
  85 # 100 <= c /\ c <= 1.
Proof.
  intros Hlo Hhi Hc.
  unfold numeric_3_2 in Hc.
  set (x := y * 100) in *.
  assert (Hx0 : 0 <= x) by (unfold x; lra).
  assert (Hn : round_half_away x = Qfloor (x + (1 # 2))).
  { unfold round_half_away.
    apply Qle_bool_iff in Hx0. now rewrite Hx0. }
  rewrite Hn in Hc.
  assert (Hn_lo : (85 <= Qfloor (x + (1 # 2)))%Z).
  { rewrite <- (Qfloor_Z 85). apply Qfloor_resp_le.
    change (inject_Z 85) with (85 : Q). unfold x. lra. }
  assert (Hn_hi : (Qfloor (x + (1 # 2)) <= 100)%Z).
  { assert (H : (Qfloor (x + (1 # 2)) < 101)%Z).
    { rewrite Zlt_Qlt.
      apply Qle_lt_trans with (x + (1 # 2)); [apply Qfloor_le |].
      change (inject_Z 101) with (101 : Q). unfold x. lra. }
    lia. }
  destruct (Z.abs _ <? 1000)%Z; [| discriminate].
  injection Hc as <-.
  set (n := Qfloor (x + (1 # 2))) in *.
  pose proof (Qred_correct (n # 100)) as E.
  split.
  - apply Qle_trans with (n # 100); [unfold Qle; simpl; lia |].
    apply Qle_lteq. right. now symmetry.
  - apply Qle_trans with (n # 100); [| unfold Qle; simpl; lia].
    apply Qle_lteq. now right.
Qed.

(** The score as the column [numeric(3,2)] keeps it. *)
Lemma stored_confidence_score_range (r c : Q) :
  unit_interval r ->
  numeric_3_2 (JSON_number (random_confidence_score r)) = Some c ->
  85 # 100 <= c /\ c <= 1.
Proof.
  intros Hr.
  destruct (JSON_confidence_score_range r Hr) as [Hlo Hhi].
  apply numeric_3_2_range; lra.
Qed.

(** ** Reachable stores *)

Section Reachable.

Variable toLowerCase : jsstring -> jsstring.

(** Row-wise properties of every reachable store. *)
Lemma reachable_rows (P : Transcript -> Prop) (R : Insight -> Prop) :
  (forall t, unprocessed t -> P t) ->
  (forall env t fname,
      draws_ok env ->
      P t ->
      P (processed (generateMockTranscript fname (random_template env))
           (now env) (random_audio_duration (random_duration env)) t)) ->
  (forall env i c,
      draws_ok env ->
      numeric_3_2 (JSON_number
                          (random_confidence_score (random_confidence env))) = Some c ->
      confidence_check c = true ->
      confidence_score i = c ->
      R i) ->
  forall s, reachable toLowerCase s ->
            Forall P (transcripts s) /\ Forall R (insights s).
Proof.
  intros Hfresh HP HR s Hs.
  induction Hs as [| s file title_ user env Hs [IHt IHi] Hok
                   | s req env Hs [IHt IHi] Hok].
  - split; constructor.
  - apply handleUpload_preserves; [exact Hfresh | | | exact IHt | exact IHi].
    + intros senv t text Hinv. apply HP.
      unfold upload_draws_ok in Hok. now rewrite Hinv in Hok.
    + intros senv i c Hinv. apply HR.
      unfold upload_draws_ok in Hok. now rewrite Hinv in Hok.
  - apply serve_preserves; [| | exact IHt | exact IHi].
    + intros t text. now apply HP.
    + intros i c. now apply HR.
Qed.

(** C2. In every reachable store, a transcript row has [processed_at] set
    if and only if it has [transcript_text] set: the insert leaves both
    null, the one update of the processing step sets both, and nothing else
    writes either column. *)
Theorem processed_at_iff_transcript_text (s : Store) (t : Transcript) :
  reachable toLowerCase s ->
  In t (transcripts s) ->
  (processed_at t <> None <-> transcript_text t <> None).
Proof.
  intros Hs Hin.
  destruct (reachable_rows text_iff_processed (fun _ => True)) with (s := s)
    as [Ht _]; auto.
  - intros t' (Htext & _ & Hat). unfold text_iff_processed.
    rewrite Htext, Hat. tauto.
  - intros env t' text _ _. unfold text_iff_processed, processed. simpl.
    split; intros _; discriminate.
  - rewrite Forall_forall in Ht. now apply Ht.
Qed.

(** X11. The list of transcripts never shows the badge "Failed": a row with
    [processed_at] set has a transcript text, and that text is not empty. *)
Lemma failed_badge_unreachable (s : Store) (t : Transcript) :
  reachable toLowerCase s ->
  In t (transcripts s) ->
  getStatusBadge t <> Failed.
Proof.
  intros Hs Hin.
  destruct (reachable_rows
              (fun t => processed_at t = None
                        \/ exists text, transcript_text t = Some text
                                        /\ text <> [])
              (fun _ => True)) with (s := s) as [Ht _]; auto.
  - intros t' (_ & _ & Hat). now left.
  - intros env t' fname _ _. right. eexists. split; [reflexivity |].
    apply generateMockTranscript_nonempty.
  - rewrite Forall_forall in Ht. specialize (Ht t Hin).
    unfold getStatusBadge.
    destruct Ht as [Hnone | (text & Htext & Hne)].
    + rewrite Hnone. discriminate.
    + rewrite Htext. destruct (js_truthy_opt (processed_at t)); cbn [negb].
      * destruct text; [contradiction | discriminate].
      * discriminate.
Qed.

(** C6. In every reachable store, a transcript row whose
    [audio_duration] is set holds an integer [d] with [300 <= d < 3900]:
    the processing step writes [Math.floor(Math.random() * 3600) + 300]. *)
Theorem audio_duration_range (s : Store) (t : Transcript) (d : Z) :
  reachable toLowerCase s ->
  In t (transcripts s) ->
  audio_duration t = Some d ->
  (300 <= d < 3900)%Z.
Proof.
  intros Hs Hin Hd.
  destruct (reachable_rows
              (fun t => forall d, audio_duration t = Some d ->
                                  (300 <= d < 3900)%Z)
              (fun _ => True)) with (s := s) as [Ht _]; auto.
  - intros t' (_ & Hnone & _) d' Hd'. congruence.
  - intros env t' text (_ & Hdur & _) _ d' Hd'.
    simpl in Hd'. injection Hd' as <-.
    now apply random_audio_duration_range.
  - rewrite Forall_forall in Ht. now apply (Ht t Hin d).
Qed.

(** C7. The processing step computes the score of an insight in doubles,
    as [0.85 + Math.random() * 0.15], and the [insights] table keeps it
    rounded to two decimals: in every reachable store the
    [confidence_score] [c] of every insight is that rounding of the score
    of a draw in [[0, 1)], and satisfies [0.85 <= c <= 1.0]. *)
Theorem confidence_score_range (s : Store) (i : Insight) :
  reachable toLowerCase s ->
  In i (insights s) ->
  (exists r,
      unit_interval r
      /\ numeric_3_2 (JSON_number (random_confidence_score r))
         = Some (confidence_score i))
  /\ 85 # 100 <= confidence_score i
  /\ confidence_score i <= 1.
Proof.
  intros Hs Hin.
  destruct (reachable_rows
              (fun _ => True)
              (fun i =>
                 (exists r,
                     unit_interval r
                     /\ numeric_3_2 (JSON_number (random_confidence_score r))
                        = Some (confidence_score i))
                 /\ 85 # 100 <= confidence_score i
                 /\ confidence_score i <= 1))
    with (s := s) as [_ Hi]; auto.
  - intros env i' c (_ & _ & Hconf) Hc _ ->. split.
    + exists (random_confidence env). split; assumption.
    + now apply (stored_confidence_score_range (random_confidence env)).
  - rewrite Forall_forall in Hi. now apply Hi.
Qed.

End Reachable.

(** A store reached by one complete run of the pipeline. *)
Lemma sample_processed_reachable :
  reachable ascii_toLowerCase
    (db (snd (handleUpload ascii_toLowerCase (Some Sample.file)
                (str "Interview A") (Some Sample.user) Sample.upload_env
                (initial_world empty_store)))).
Proof.
  apply reach_upload.
  - apply reach_empty.
  - repeat split; vm_compute; congruence.
Qed.

Lemma processed_at_iff_transcript_text_witness :
  let s := db (snd (handleUpload ascii_toLowerCase (Some Sample.file)
                      (str "Interview A") (Some Sample.user)
                      Sample.upload_env (initial_world empty_store))) in
  exists t, In t (transcripts s)
            /\ transcript_text t <> None
            /\ processed_at t <> None.
Proof.
  intros s.
  assert (Hs : reachable ascii_toLowerCase s)
    by exact sample_processed_reachable.
  destruct (transcripts s) as [| t ts] eqn:E; [vm_compute in E; discriminate |].
  exists t.
  assert (Hin : In t (transcripts s)) by (rewrite E; now left).
  assert (Htext : transcript_text t <> None).
  { vm_compute in E. injection E as <- _. discriminate. }
  split; [rewrite <- E; exact Hin |]. split; [exact Htext |].
  apply (processed_at_iff_transcript_text ascii_toLowerCase s t Hs Hin).
  exact Htext.
Defined.

Lemma audio_duration_range_witness :
  let s := db (snd (handleUpload ascii_toLowerCase (Some Sample.file)
                      (str "Interview A") (Some Sample.user)
                      Sample.upload_env (initial_world empty_store))) in
  exists t, In t (transcripts s)
            /\ audio_duration t = Some 3675%Z
            /\ (300 <= 3675 < 3900)%Z.
Proof.
  intros s.
  assert (Hs : reachable ascii_toLowerCase s)
    by exact sample_processed_reachable.
  destruct (transcripts s) as [| t ts] eqn:E; [vm_compute in E; discriminate |].
  exists t.
  assert (Hin : In t (transcripts s)) by (rewrite E; now left).
  assert (Hd : audio_duration t = Some 3675%Z).
  { vm_compute in E. injection E as <- _. reflexivity. }
  split; [rewrite <- E; exact Hin |]. split; [exact Hd |].
  exact (audio_duration_range ascii_toLowerCase s t 3675%Z Hs Hin Hd).
Defined.

(** The claimed bound of 3600 fails: the draw 15/16 gives
    [floor (3375) + 300 = 3675]. *)
Lemma audio_duration_exceeds_3600 :
  unit_interval (random_duration Sample.serve_env)
  /\ map audio_duration
       (transcripts
          (db (snd (serve ascii_toLowerCase
                      (Sample.post (JString (str "t-1"))) Sample.serve_env
                      (initial_world Sample.one_row)))))
     = [Some 3675%Z]
  /\ ~ (300 <= 3675 < 3600)%Z.
Proof.
  split; [split; vm_compute; congruence |].
  split; [vm_compute; reflexivity | lia].
Qed.

Lemma confidence_score_range_witness :
  let s := db (snd (handleUpload ascii_toLowerCase (Some Sample.file)
                      (str "Interview A") (Some Sample.user)
                      Sample.upload_env (initial_world empty_store))) in
  exists i, In i (insights s)
            /\ 85 # 100 <= confidence_score i /\ confidence_score i <= 1.
Proof.
  intros s.
  assert (Hs : reachable ascii_toLowerCase s)
    by exact sample_processed_reachable.
  destruct (insights s) as [| i l] eqn:E; [vm_compute in E; discriminate |].
  exists i.
  assert (Hin : In i (insights s)) by (rewrite E; now left).
  split; [rewrite <- E; exact Hin |].
  exact (proj2 (confidence_score_range ascii_toLowerCase s i Hs Hin)).
Defined.

(** The claimed strict bound fails, of the computed score and of the stored
    one: for the draw [1 - 2^-52] the product [r * 0.15] rounds to
    [0.15 - 2^-55] and the sum to exactly [1.0], which is written as [1] and
    kept as 1.00. *)
Lemma confidence_score_stored_as_1 :
  unit_interval (random_confidence Sample.top_draw_env)
  /\ random_confidence_score (random_confidence Sample.top_draw_env) = 1
  /\ map confidence_score
       (insights
          (db (snd (serve ascii_toLowerCase
                      (Sample.post (JString (str "t-1")))
                      Sample.top_draw_env
                      (initial_world Sample.one_row)))))
     = [1]
  /\ ~ (1 < 1).
Proof.
  split; [split; vm_compute; congruence |].
  split; [vm_compute; reflexivity |].
  split; [vm_compute; reflexivity |].
  vm_compute. congruence.
Qed.

(** ** Responses of [serve] *)

Lemma eqb_false (a b : jsstring) : a <> b -> eqb a b = false.
Proof. intros H. unfold eqb. now destruct (jsstring_eq_dec a b). Qed.

Lemma eqb_eq (a b : jsstring) : eqb a b = true -> a = b.
Proof. unfold eqb. now destruct (jsstring_eq_dec a b). Qed.

Section Responses.

Variable toLowerCase : jsstring -> jsstring.

(** C9. A request whose body has no [transcriptId], or an empty one, is
    answered 500 with ['Transcript ID is required'] and nothing but the log
    line of the [catch] happens: no call to the database, and the store is
    as it was. *)
Theorem missing_transcriptId_rejected (req : Request) (env : ServeEnv)
    (w : World) (v : jsvalue) :
  method req <> str "OPTIONS" ->
  body req = BodyJson v ->
  truthy v = false ->
  serve toLowerCase req env w
  = (Ok {| status := 500;
           payload := Failure (str "Transcript ID is required") |},
     {| db := db w; uploading := uploading w; processing := processing w;
        events := events w
                  ++ [ServerLog (str "Error processing audio:")
                        (str "Transcript ID is required")] |}).
Proof.
  intros Hm Hb Hv.
  unfold serve, process_audio. rewrite (eqb_false _ _ Hm), Hb.
  run_eff. rewrite Hv. reflexivity.
Qed.


End Responses.

Lemma missing_transcriptId_rejected_witness :
  serve ascii_toLowerCase (Sample.post JUndefined) Sample.serve_env
    (initial_world Sample.one_row)
  = (Ok {| status := 500;
           payload := Failure (str "Transcript ID is required") |},
     {| db := Sample.one_row; uploading := false; processing := false;
        events := [ServerLog (str "Error processing audio:")
                     (str "Transcript ID is required")] |}).
Proof.
  apply (missing_transcriptId_rejected ascii_toLowerCase
           (Sample.post JUndefined) Sample.serve_env
           (initial_world Sample.one_row) JUndefined).
  - intros H. vm_compute in H. discriminate.
  - reflexivity.
  - reflexivity.
Defined.


(** ** Outcomes of [handleUpload] *)

Lemma existsb_id_fresh (ts : list Transcript) (tid : jsstring) :
  (forall t, In t ts -> id t <> tid) ->
  existsb (fun t => eqb (id t) tid) ts = false.
Proof.
  intros H. destruct (existsb _ ts) eqn:E; [| reflexivity].
  apply existsb_exists in E as (t & Hin & Heq).
  apply eqb_eq in Heq. now elim (H t Hin).
Qed.

Lemma filter_fresh (ts : list Transcript) (tid : jsstring) :
  (forall t, In t ts -> id t <> tid) ->
  filter (fun t => negb (eqb (id t) tid)) ts = ts.
Proof.
  intros H. apply forallb_filter_id. apply forallb_forall.
  intros t Hin. now rewrite (eqb_false _ _ (H t Hin)).
Qed.

Lemma eqb_refl (a : jsstring) : eqb a a = true.
Proof. unfold eqb. now destruct (jsstring_eq_dec a a). Qed.

Lemma filter_out_new (ts : list Transcript) (row : Transcript) :
  (forall t, In t ts -> id t <> id row) ->
  filter (fun t => negb (eqb (id t) (id row))) (ts ++ [row]) = ts.
Proof.
  intros H. rewrite filter_app, (filter_fresh _ _ H). cbn [filter].
  rewrite eqb_refl. cbn [negb]. apply app_nil_r.
Qed.

Lemma title_given (title_ : jsstring) :
  title_ <> [] -> negb (length title_ =? 0) = true.
Proof. now destruct title_. Qed.

Lemma server_events_no_delete (evs : list Event) :
  forallb server_event evs = true -> existsb is_delete evs = false.
Proof.
  induction evs as [| e evs IH]; [reflexivity |].
  cbn [forallb existsb]. intros H. apply andb_prop in H as [He Hevs].
  rewrite (IH Hevs), orb_false_r.
  destruct e as [[] | | | |]; try reflexivity; discriminate.
Qed.

Section UploadOutcomes.

Variable toLowerCase : jsstring -> jsstring.

(** C1. When the upload to the object store fails after the transcript row
    was inserted, the pipeline sends the delete of that row, then fails with
    the upload error (a destructive toast, no navigation); and when that
    delete is carried out, the table of transcripts is as it was before the
    run, without the row the run had created. *)
Theorem upload_failure_compensation (s : Store) (file : File)
    (title_ : jsstring) (user : User) (env : UploadEnv) (msg : jsstring) :
  title_ <> [] ->
  insert_transcript_fault env = None ->
  (forall t, In t (transcripts s) -> id t <> new_id env) ->
  upload_error env s (object_key env user file) = Some msg ->
  let w := snd (handleUpload toLowerCase (Some file) title_ (Some user) env
                  (initial_world s)) in
  events w
  = [Called InsertTranscript;
     Called (UploadObject (object_key env user file));
     Called (DeleteTranscript (new_id env));
     ConsoleError (str "Upload error:") (str "Failed to upload file: " ++ msg);
     Toast (str "Upload Failed") (str "Failed to upload file: " ++ msg) true]
  /\ uploading w = false
  /\ processing w = false
  /\ audio_files (db w) = audio_files s
  /\ (delete_fault env = None ->
      transcripts (db w) = transcripts s
      /\ forall t, In t (transcripts (db w)) -> id t <> new_id env).
Proof.
  intros Htitle Hins Hfresh Hup w. subst w.
  unfold handleUpload, upload_and_process, insert_transcript, upload_object,
    delete_transcript, initial_world.
  rewrite (title_given _ Htitle).
  run_eff. rewrite Hins. run_eff.
  rewrite (existsb_id_fresh _ _ Hfresh). run_eff.
  unfold upload_error, object_key in Hup.
  destruct (upload_fault env) as [m |] eqn:Hfault; run_eff.
  - injection Hup as ->.
    destruct (delete_fault env) eqn:Hdel; run_eff;
      repeat split; try reflexivity; try discriminate;
      rewrite filter_out_new by exact Hfresh; [reflexivity | exact Hfresh].
  - destruct (existsb _ (audio_files s)) eqn:Hdup; [| discriminate].
    injection Hup as <-. run_eff.
    destruct (delete_fault env) eqn:Hdel; run_eff;
      repeat split; try reflexivity; try discriminate;
      rewrite filter_out_new by exact Hfresh; [reflexivity | exact Hfresh].
Qed.

(** C4. Once the row is inserted and the file uploaded, a failed invocation
    of the processing step is not fatal: the page shows the "Processing
    Error" notice (or "Processing Complete!" when the invocation succeeded),
    sends no delete, keeps the row and the file, and in both cases ends by
    navigating to the detail view of the transcript. *)
Theorem processing_failure_not_fatal (s : Store) (file : File)
    (title_ : jsstring) (user : User) (env : UploadEnv) :
  title_ <> [] ->
  insert_transcript_fault env = None ->
  (forall t, In t (transcripts s) -> id t <> new_id env) ->
  upload_error env s (object_key env user file) = None ->
  let w := snd (handleUpload toLowerCase (Some file) title_ (Some user) env
                  (initial_world s)) in
  exists served notice : list Event,
    events w
    = events (uploaded_world s env user title_ file)
        ++ served ++ notice
        ++ [Navigate (str "/transcripts/" ++ new_id env)]
    /\ forallb server_event served = true
    /\ (notice = notice_complete \/ exists msg, notice = notice_failed msg)
    /\ (forall msg,
          invocation env = NotDelivered msg -> notice = notice_failed msg)
    /\ (forall senv resp,
          invocation env = Delivered senv ->
          fst (serve toLowerCase
                 {| method := str "POST";
                    body := BodyJson (JString (new_id env)) |}
                 senv (uploaded_world s env user title_ file)) = Ok resp ->
          response_ok (status resp) = false ->
          exists msg, notice = notice_failed msg)
    /\ existsb is_delete (events w) = false
    /\ map id (transcripts (db w)) = map id (transcripts s) ++ [new_id env]
    /\ audio_files (db w)
       = audio_files s ++ [(object_key env user file, file)]
    /\ uploading w = false
    /\ processing w = false.
Proof.
  intros Htitle Hins Hfresh Hup w. subst w.
  unfold handleUpload, upload_and_process, insert_transcript, upload_object,
    invoke, initial_world.
  rewrite (title_given _ Htitle).
  run_eff. rewrite Hins. run_eff.
  rewrite (existsb_id_fresh _ _ Hfresh). run_eff.
  unfold upload_error, object_key in Hup.
  destruct (upload_fault env) as [m |] eqn:Hfault; [discriminate |]. run_eff.
  cbn [id].
  destruct (existsb _ (audio_files s)) eqn:Hdup; [discriminate |]. run_eff.
  destruct (invocation env) as [msg | senv] eqn:Hinv; run_eff.
  - exists [], (notice_failed msg).
    repeat split; try reflexivity.
    + right. now exists msg.
    + intros msg' [= <-]. reflexivity.
    + intros senv resp [=].
    + now rewrite map_app.
  - match goal with
    | |- context [serve toLowerCase ?r senv ?w0] =>
        change w0 with (uploaded_world s env user title_ file)
    end.
    pose proof (serve_keeps_ids toLowerCase
                  {| method := str "POST";
                     body := BodyJson (JString (new_id env)) |}
                  senv (uploaded_world s env user title_ file)) as Hids.
    destruct (serve_effect toLowerCase
                {| method := str "POST";
                   body := BodyJson (JString (new_id env)) |}
                senv (uploaded_world s env user title_ file))
      as (resp & w' & E & Hu & Hp & Hfiles & (evs & Hev & Hsrv) & _ & _).
    rewrite E in Hids |- *. cbn [snd] in Hids. run_eff.
    assert (Hdel : forall notice,
              existsb is_delete notice = false ->
              existsb is_delete
                (events (uploaded_world s env user title_ file)
                 ++ evs ++ notice
                 ++ [Navigate (str "/transcripts/" ++ new_id env)]) = false).
    { intros notice Hn. rewrite !existsb_app, Hn.
      now rewrite (server_events_no_delete _ Hsrv). }
    assert (Hmap : map id (transcripts (db w'))
                   = map id (transcripts s) ++ [new_id env]).
    { rewrite Hids. cbn [uploaded_world uploaded_store db transcripts
                           with_audio_files with_transcripts].
      now rewrite map_app. }
    destruct (response_ok (status resp)) eqn:Hok; run_eff.
    + exists evs, notice_complete.
      rewrite Hev, <- !app_assoc.
      repeat split; auto.
      all: try discriminate.
      all: try (now apply (Hdel notice_complete)).
      intros senv' resp' [= <-] Hresp Hbad.
      rewrite E in Hresp. cbn [fst] in Hresp. injection Hresp as <-.
      congruence.
    + exists evs,
        (notice_failed (str "Edge Function returned a non-2xx status code")).
      rewrite Hev, <- !app_assoc.
      repeat split; auto.
      all: try discriminate.
      all: try (now apply (Hdel (notice_failed _))).
      all: try (right; now eexists).
      intros. now eexists.
Qed.

End UploadOutcomes.

Lemma upload_failure_compensation_witness :
  let w := snd (handleUpload ascii_toLowerCase (Some Sample.file)
                  (str "Interview A") (Some Sample.user)
                  Sample.upload_fails_env (initial_world empty_store)) in
  events w
  = [Called InsertTranscript;
     Called (UploadObject (str "u-1/t-1.mp3"));
     Called (DeleteTranscript (str "t-1"));
     ConsoleError (str "Upload error:")
       (str "Failed to upload file: Payload too large");
     Toast (str "Upload Failed")
       (str "Failed to upload file: Payload too large") true]
  /\ transcripts (db w) = []
  /\ audio_files (db w) = [].
Proof.
  intros w.
  destruct (upload_failure_compensation ascii_toLowerCase empty_store
              Sample.file (str "Interview A") Sample.user
              Sample.upload_fails_env (str "Payload too large"))
    as (Hev & _ & _ & Hfiles & Hrows).
  - discriminate.
  - reflexivity.
  - intros t [].
  - reflexivity.
  - split; [exact Hev |]. split; [| exact Hfiles].
    apply Hrows. reflexivity.
Defined.

(** The row survives a failed upload when the delete fails as well: here
    the upload and the delete that follows it both meet a network that is
    gone, and the run ends with the upload error and the row [t-1] still in
    the table. *)
Lemma failed_upload_leaves_row :
  let w := snd (handleUpload ascii_toLowerCase (Some Sample.file)
                  (str "Interview A") (Some Sample.user)
                  Sample.offline_env (initial_world empty_store)) in
  events w
  = [Called InsertTranscript;
     Called (UploadObject (str "u-1/t-1.mp3"));
     Called (DeleteTranscript (str "t-1"));
     ConsoleError (str "Upload error:")
       (str "Failed to upload file: Failed to fetch");
     Toast (str "Upload Failed")
       (str "Failed to upload file: Failed to fetch") true]
  /\ map id (transcripts (db w)) = [str "t-1"]
  /\ ~ (forall t, In t (transcripts (db w)) -> id t <> str "t-1").
Proof.
  intros w. split; [vm_compute; reflexivity |].
  split; [vm_compute; reflexivity |].
  intros H.
  destruct (transcripts (db w)) as [| t ts] eqn:E;
    [vm_compute in E; discriminate |].
  apply (H t); [now left |].
  vm_compute in E. injection E as <- _. reflexivity.
Qed.

Lemma processing_failure_not_fatal_witness :
  let w := snd (handleUpload ascii_toLowerCase (Some Sample.file)
                  (str "Interview A") (Some Sample.user)
                  Sample.unprocessed_env (initial_world empty_store)) in
  (exists pre,
      events w
      = pre ++ notice_failed (str "Failed to fetch")
          ++ [Navigate (str "/transcripts/t-1")])
  /\ existsb is_delete (events w) = false
  /\ map id (transcripts (db w)) = [str "t-1"]
  /\ map fst (audio_files (db w)) = [str "u-1/t-1.mp3"].
Proof.
  intros w.
  destruct (processing_failure_not_fatal ascii_toLowerCase empty_store
              Sample.file (str "Interview A") Sample.user
              Sample.unprocessed_env)
    as (served & notice & Hev & _ & _ & Hnd & _ & Hdel & Hids & Hfiles & _).
  - discriminate.
  - reflexivity.
  - intros t [].
  - reflexivity.
  - split.
    + exists (events (uploaded_world empty_store Sample.unprocessed_env
                        Sample.user (str "Interview A") Sample.file)
              ++ served).
      fold w in Hev. rewrite Hev, (Hnd _ eq_refl), <- app_assoc.
      reflexivity.
    + split; [exact Hdel |]. split; [exact Hids |].
      fold w in Hfiles. rewrite Hfiles. reflexivity.
Defined.

(** * Further properties *)

(** ** Choosing a file *)

Lemma split_last_no_sep (sep : N) (s : jsstring) :
  split sep s <> []
  /\ forall c, In c (last (split sep s) []) -> c <> sep.
Proof.
  induction s as [| a s [IHne IH]]; cbn [split].
  - split; [discriminate |]. intros c [].
  - destruct (N.eqb a sep) eqn:E.
    + split; [discriminate |].
      destruct (split sep s) as [| w ws] eqn:Es; [contradiction |].
      exact IH.
    + destruct (split sep s) as [| w ws] eqn:Es; [contradiction |].
      split; [discriminate |].
      destruct ws as [| w' ws'].
      * cbn [last] in *. intros c [<- | Hin].
        -- now apply N.eqb_neq.
        -- now apply IH.
      * exact IH.
Qed.

Lemma pop_last (l : list jsstring) :
  l <> [] -> interpolate (pop l) = last l [].
Proof.
  unfold pop. induction l as [| a [| b l] IH]; intros Hne.
  - contradiction.
  - reflexivity.
  - cbn [map last] in *. apply IH. discriminate.
Qed.

Lemma split_no_sep (sep : N) (s : jsstring) :
  (forall c, In c s -> c <> sep) -> split sep s = [s].
Proof.
  induction s as [| a s IH]; intros H; cbn [split]; [reflexivity |].
  assert (Ha : N.eqb a sep = false) by (apply N.eqb_neq, H; now left).
  rewrite Ha, IH; [reflexivity |].
  intros c Hc. apply H. now right.
Qed.

Lemma forallb_not_slash_or_dot (s : jsstring) :
  forallb not_slash_or_dot s = true ->
  forall c, In c s -> c <> full_stop.
Proof.
  intros H c Hc. rewrite forallb_forall in H. specialize (H c Hc).
  unfold not_slash_or_dot in H. apply andb_prop in H as [_ H].
  apply negb_true_iff in H. now apply N.eqb_neq.
Qed.

Lemma split_single (sep : N) (s w : jsstring) :
  split sep s = [w] -> ~ In sep s.
Proof.
  revert w. induction s as [| a s IH]; intros w Hs; [intros [] |].
  cbn [split] in Hs.
  destruct (split_last_no_sep sep s) as [Hne _].
  destruct (N.eqb a sep) eqn:E.
  - destruct (split sep s); [contradiction | discriminate].
  - destruct (split sep s) as [| w' ws'] eqn:Es; [contradiction |].
    injection Hs as _ ->.
    intros [-> | Hin].
    + now rewrite N.eqb_refl in E.
    + now apply (IH w').
Qed.

Lemma split_last_cons (sep a : N) (s : jsstring) :
  In sep s ->
  last (split sep (a :: s)) [] = last (split sep s) [].
Proof.
  intros Hin. cbn [split].
  destruct (split_last_no_sep sep s) as [Hne _].
  destruct (split sep s) as [| w ws] eqn:Es; [contradiction |].
  destruct (N.eqb a sep); [reflexivity |].
  destruct ws as [| w' ws']; [| reflexivity].
  now elim (split_single sep s w Es).
Qed.

Lemma removeExtension_fileExt (s : jsstring) :
  removeExtension s = s
  \/ s = removeExtension s ++ [full_stop] ++ last (split full_stop s) [].
Proof.
  induction s as [| c s IH]; [now left |].
  cbn [removeExtension].
  destruct (N.eqb c full_stop && negb (length s =? 0)
            && forallb not_slash_or_dot s) eqn:E.
  - right.
    apply andb_prop in E as [E Hall]. apply andb_prop in E as [Hc _].
    apply N.eqb_eq in Hc. subst c.
    cbn [split]. rewrite N.eqb_refl.
    rewrite (split_no_sep full_stop s (forallb_not_slash_or_dot s Hall)).
    reflexivity.
  - destruct IH as [IH | IH]; [left; now rewrite IH |].
    right. rewrite split_last_cons.
    + cbn [app]. f_equal. exact IH.
    + rewrite IH. apply in_or_app. right. now left.
Qed.

(** X1. The stem that [handleFileChange] turns into a title and the extension
    that [handleUpload] puts in the object key fit together: whenever a stem
    is cut off the file name, stem, dot and extension give the name back.
    The extension never contains a dot, and it is the whole name when the
    name has none. *)
Theorem stem_and_extension (file : File) :
  (removeExtension (name file) <> name file ->
   name file = removeExtension (name file) ++ str "." ++ fileExt file)
  /\ (forall c, In c (fileExt file) -> c <> full_stop)
  /\ (~ In full_stop (name file) -> fileExt file = name file).
Proof.
  unfold fileExt.
  destruct (split_last_no_sep full_stop (name file)) as [Hne Hlast].
  rewrite (pop_last _ Hne).
  split; [| split].
  - intros Hcut.
    destruct (removeExtension_fileExt (name file)) as [H | H];
      [contradiction | exact H].
  - exact Hlast.
  - intros Hno. rewrite split_no_sep; [reflexivity |].
    intros c Hc ->. contradiction.
Qed.

Lemma stem_and_extension_witness :
  let file := {| name := str "Interview_A.final.mp3"; bytes := [] |} in
  name file = str "Interview_A.final" ++ str "." ++ str "mp3"
  /\ removeExtension (name file) = str "Interview_A.final"
  /\ fileExt file = str "mp3".
Proof.
  intros file.
  assert (Hcut : removeExtension (name file) <> name file)
    by (vm_compute; discriminate).
  pose proof (proj1 (stem_and_extension file) Hcut) as H.
  replace (removeExtension (name file)) with (str "Interview_A.final") in H
    by (vm_compute; reflexivity).
  replace (fileExt file) with (str "mp3") in H by (vm_compute; reflexivity).
  split; [exact H |]. split; vm_compute; reflexivity.
Defined.

(** X2. [handleFileChange] never replaces a title that was typed, changes
    nothing when no file comes with the event, and the title it derives from
    a file name contains neither ['-'] nor ['_']. *)
Theorem handleFileChange_title (selectedFile file : option File)
    (title_ : jsstring) :
  (title_ <> [] -> snd (handleFileChange selectedFile file title_) = title_)
  /\ (selectedFile = None ->
      handleFileChange selectedFile file title_ = (file, title_))
  /\ (forall f c,
        selectedFile = Some f ->
        title_ = [] ->
        In c (snd (handleFileChange selectedFile file title_)) ->
        c <> hyphen /\ c <> low_line /\ (c = space \/ In c (name f))).
Proof.
  split; [| split].
  - intros Hne. unfold handleFileChange.
    destruct selectedFile; [| reflexivity].
    destruct title_; [contradiction | reflexivity].
  - intros ->. reflexivity.
  - intros f c -> -> Hin. cbn in Hin.
    unfold spacesForDashes in Hin. apply in_map_iff in Hin as (x & Hx & Hin).
    assert (Hsub : forall s y, In y (removeExtension s) -> In y s).
    { induction s as [| a s IH]; cbn [removeExtension]; [auto |].
      destruct (_ && _ && _); [intros y [] |].
      intros y [-> | Hy]; [now left | right; auto]. }
    destruct (N.eqb x hyphen) eqn:E1; cbn [orb] in Hx.
    + subst c. repeat split; try discriminate. now left.
    + destruct (N.eqb x low_line) eqn:E2.
      * subst c. repeat split; try discriminate. now left.
      * subst c. apply N.eqb_neq in E1, E2. repeat split; auto.
Qed.

Lemma handleFileChange_title_witness :
  snd (handleFileChange
         (Some {| name := str "Interview_A.mp3"; bytes := [] |})
         None (str "Kick-off")) = str "Kick-off".
Proof.
  apply (proj1 (handleFileChange_title
                  (Some {| name := str "Interview_A.mp3"; bytes := [] |})
                  None (str "Kick-off"))).
  discriminate.
Defined.

(** ** The navigation bar *)

Lemma startsWith_firstn (s p : jsstring) (n : nat) :
  startsWith s p = true -> (n <= length p)%nat -> firstn n s = firstn n p.
Proof.
  revert s n. induction p as [| a p IH]; intros s n H Hn.
  - assert (n = 0%nat) by (cbn in Hn; lia). subst n. reflexivity.
  - destruct s as [| b s]; [discriminate |]. cbn [startsWith] in H.
    apply andb_prop in H as [Hab H]. apply N.eqb_eq in Hab. subst b.
    destruct n as [| n]; [reflexivity |].
    cbn [firstn]. f_equal. apply IH; [exact H |]. cbn in Hn. lia.
Qed.

(** X3. At every location at most one entry of the navigation bar is shown
    as active, and the dashboard entry only at ['/'] itself. *)
Theorem isActive_at_most_one (pathname : jsstring)
    (a b : jsstring * jsstring) :
  In a Layout.navigation ->
  In b Layout.navigation ->
  Layout.isActive pathname (snd a) = true ->
  Layout.isActive pathname (snd b) = true ->
  a = b.
Proof.
  assert (Hroot : forall p, Layout.isActive p (str "/") = true -> p = str "/").
  { intros p H. now apply eqb_eq in H. }
  assert (Hsub : forall p path,
             eqb path (str "/") = false ->
             Layout.isActive p path = true ->
             (2 <= length path)%nat ->
             firstn 2 p = firstn 2 path).
  { intros p path Hp H Hlen. unfold Layout.isActive in H. rewrite Hp in H.
    now apply startsWith_firstn. }
  intros Ha Hb Hact_a Hact_b.
  unfold Layout.navigation in Ha, Hb. cbn [In] in Ha, Hb.
  destruct Ha as [<- | [<- | [<- | [<- | []]]]];
    destruct Hb as [<- | [<- | [<- | [<- | []]]]];
    try reflexivity; cbn [snd] in *; exfalso;
    try (apply Hroot in Hact_a; subst pathname;
         vm_compute in Hact_b; discriminate);
    try (apply Hroot in Hact_b; subst pathname;
         vm_compute in Hact_a; discriminate);
    apply Hsub in Hact_a; try reflexivity; try (vm_compute; lia);
    apply Hsub in Hact_b; try reflexivity; try (vm_compute; lia);
    rewrite Hact_a in Hact_b; vm_compute in Hact_b; discriminate.
Qed.

Lemma isActive_at_most_one_witness :
  (str "Transcripts", str "/transcripts") = (str "Transcripts", str "/transcripts")
  /\ Layout.isActive (str "/transcripts/t-1") (str "/transcripts") = true
  /\ Layout.isActive (str "/transcripts/t-1") (str "/upload") = false.
Proof.
  split.
  - apply (isActive_at_most_one (str "/transcripts/t-1")).
    + right. right. now left.
    + right. right. now left.
    + reflexivity.
    + reflexivity.
  - split; reflexivity.
Defined.

(** ** Durations *)

Lemma formatDuration_ends_with_m (seconds : Z) :
  exists l, DashboardPage.formatDuration seconds = l ++ [109%N].
Proof.
  unfold DashboardPage.formatDuration.
  change (str "m") with [109%N].
  destruct (0 <? seconds / 3600)%Z.
  - eexists. rewrite !app_assoc. reflexivity.
  - eexists. reflexivity.
Qed.

(** X4. The list of transcripts shows ['Unknown'] for a duration exactly when
    it is null or 0; for every other duration it shows what the dashboard
    shows. *)
Theorem formatDuration_Unknown (seconds : option Z) :
  (TranscriptsPage.formatDuration seconds = str "Unknown"
   <-> seconds = None \/ seconds = Some 0%Z)
  /\ (forall s, seconds = Some s -> s <> 0%Z ->
        TranscriptsPage.formatDuration seconds
        = DashboardPage.formatDuration s).
Proof.
  assert (Hsame : forall s, s <> 0%Z ->
            TranscriptsPage.formatDuration (Some s)
            = DashboardPage.formatDuration s).
  { intros s Hs. unfold TranscriptsPage.formatDuration.
    apply Z.eqb_neq in Hs. now rewrite Hs. }
  split.
  - split.
    + destruct seconds as [s |]; [| now left].
      destruct (Z.eq_dec s 0) as [-> | Hs]; [now right |].
      rewrite (Hsame s Hs).
      destruct (formatDuration_ends_with_m s) as [l ->].
      change (str "Unknown") with (str "Unknow" ++ [110%N]).
      intros H. apply app_inj_tail in H as [_ H]. discriminate.
    + intros [-> | ->]; reflexivity.
  - intros s -> Hs. now apply Hsame.
Qed.

Lemma formatDuration_Unknown_witness :
  TranscriptsPage.formatDuration (Some 3675%Z)
  = DashboardPage.formatDuration 3675%Z.
Proof.
  apply (proj2 (formatDuration_Unknown (Some 3675%Z)) 3675%Z).
  - reflexivity.
  - discriminate.
Defined.

(** A duration written by the processing step as the pages print it. *)
Lemma formatDuration_processed_range (d : Z) :
  (300 <= d < 3900)%Z ->
  exists m : Z,
    (d < 3600 /\ 5 <= m <= 59 /\ 60 * m <= d < 60 * m + 60
     /\ TranscriptsPage.formatDuration (Some d)
        = number_to_string m ++ str "m")%Z
    \/ (3600 <= d /\ 0 <= m <= 4 /\ 3600 + 60 * m <= d < 3600 + 60 * m + 60
        /\ TranscriptsPage.formatDuration (Some d)
           = str "1h " ++ number_to_string m ++ str "m")%Z.
Proof.
  intros Hd. unfold TranscriptsPage.formatDuration.
  assert (H0 : (d =? 0)%Z = false) by (apply Z.eqb_neq; lia).
  rewrite H0. rewrite Z.rem_mod_nonneg by lia.
  destruct (Z_lt_ge_dec d 3600) as [Hlt | Hge].
  - exists (d / 60)%Z. left.
    rewrite (Z.div_small d 3600) by lia.
    rewrite (Z.mod_small d 3600) by lia.
    cbn [Z.ltb Z.compare].
    pose proof (Z.div_mod d 60 ltac:(lia)) as Hdm.
    pose proof (Z.mod_pos_bound d 60 ltac:(lia)) as Hm.
    repeat split; lia.
  - exists ((d - 3600) / 60)%Z. right.
    assert (Hq : (d / 3600 = 1)%Z).
    { symmetry. apply (Z.div_unique d 3600 1 (d - 3600)); lia. }
    assert (Hr : (d mod 3600 = d - 3600)%Z).
    { symmetry. apply (Z.mod_unique d 3600 1 (d - 3600)); lia. }
    rewrite Hq, Hr. cbn [Z.ltb Z.compare].
    pose proof (Z.div_mod (d - 3600) 60 ltac:(lia)) as Hdm.
    pose proof (Z.mod_pos_bound (d - 3600) 60 ltac:(lia)) as Hm.
    repeat split; lia.
Qed.

(** ** Search *)

Lemma startsWith_refl (s : jsstring) : startsWith s s = true.
Proof.
  induction s as [| a s IH]; [reflexivity |].
  cbn [startsWith]. now rewrite N.eqb_refl.
Qed.

Lemma includes_refl (s : jsstring) : includes s s = true.
Proof. destruct s; cbn [includes]; now rewrite startsWith_refl. Qed.

Section SearchProperties.

Variable toLowerCase : jsstring -> jsstring.

(** X5. The search of the list of transcripts returns rows of the list, in
    the order of the list, all of them when the term is empty, and
    otherwise exactly the rows that match; a row is always found under its
    own title and under its own file name. *)
Theorem search_results (searchTerm : jsstring) (rows : list Transcript) :
  let found :=
    TranscriptsPage.filteredTranscripts toLowerCase searchTerm rows in
  (searchTerm = [] -> found = rows)
  /\ (forall t, In t found ->
        In t rows
        /\ (searchTerm <> [] ->
            TranscriptsPage.matches toLowerCase searchTerm t = true))
  /\ (exists keep : Transcript -> bool, found = filter keep rows)
  /\ (forall t, In t rows ->
        searchTerm = title t \/ searchTerm = file_name t ->
        In t found).
Proof.
  intros found. subst found. unfold TranscriptsPage.filteredTranscripts.
  destruct searchTerm as [| c term].
  - cbn [length Nat.eqb]. split; [reflexivity |]. split; [| split].
    + intros t Hin. split; [exact Hin |]. intros Hne. contradiction.
    + exists (fun _ => true). symmetry. apply forallb_filter_id.
      now apply forallb_forall.
    + intros t Hin _. exact Hin.
  - cbn [length Nat.eqb]. split; [discriminate |]. split; [| split].
    + intros t Hin. apply filter_In in Hin as [Hin Hm]. auto.
    + eexists. reflexivity.
    + intros t Hin Hterm. apply filter_In. split; [exact Hin |].
      unfold TranscriptsPage.matches.
      destruct Hterm as [-> | ->]; rewrite includes_refl;
        [reflexivity | now rewrite orb_true_r].
Qed.

End SearchProperties.

Lemma search_results_witness :
  In Sample.row
    (TranscriptsPage.filteredTranscripts ascii_toLowerCase
       (str "Interview A") (transcripts Sample.one_row)).
Proof.
  destruct (search_results ascii_toLowerCase (str "Interview A")
              (transcripts Sample.one_row)) as (_ & _ & _ & Hfound).
  apply Hfound.
  - now left.
  - now left.
Defined.

(** ** Every run is a sequence of elementary changes *)

Section RunsAsOps.

Variable toLowerCase : jsstring -> jsstring.

Lemma ops_one (s s' : Store) :
  store_op toLowerCase s s' -> store_ops toLowerCase s s'.
Proof. intros H. eapply ops_then; [apply ops_none | exact H]. Qed.

Lemma ops_trans (s1 s2 s3 : Store) :
  store_ops toLowerCase s1 s2 -> store_ops toLowerCase s2 s3 ->
  store_ops toLowerCase s1 s3.
Proof.
  intros H12 H23. induction H23 as [| s2 s3 s4 _ IH Hop]; [exact H12 |].
  eapply ops_then; [apply IH; exact H12 | exact Hop].
Qed.

Lemma id_is_JString (env : ServeEnv) (text : jsstring) (t : Transcript)
    (ts : list Transcript) :
  filter (id_is env (JString text)) ts = [t] ->
  In t ts /\ uuid_of env text = Some (id t).
Proof.
  intros H.
  assert (Hin : In t (filter (id_is env (JString text)) ts))
    by (rewrite H; now left).
  apply filter_In in Hin as [Hin Hid]. split; [exact Hin |].
  unfold id_is, filter_text in Hid.
  destruct (uuid_of env text) as [u |]; [| discriminate].
  apply eqb_eq in Hid. now subst u.
Qed.

Lemma id_is_selected (env : ServeEnv) (v : jsvalue) (t : Transcript)
    (ts : list Transcript) :
  filter (id_is env v) ts = [t] -> In t ts /\ id_is env v t = true.
Proof.
  intros H.
  assert (Hin : In t (filter (id_is env v) ts)) by (rewrite H; now left).
  now apply filter_In in Hin.
Qed.

Lemma updated_rows_In (selected : Transcript -> bool) (text at_ : jsstring)
    (d : Z) (ts : list Transcript) (t : Transcript) :
  In t ts -> selected t = true ->
  In (processed text at_ d t) (updated_rows selected text at_ d ts).
Proof.
  intros Hin Hid. unfold updated_rows. apply in_map_iff.
  exists t. now rewrite Hid.
Qed.

Lemma serve_ops (req : Request) (env : ServeEnv) (w : World) :
  draws_ok env ->
  exists resp w',
    serve toLowerCase req env w = (Ok resp, w')
    /\ store_ops toLowerCase (db w) (db w')
    /\ uploading w' = uploading w
    /\ processing w' = processing w.
Proof.
  intros (Hrt & Hrd & Hrc).
  unfold serve, process_audio, request_insights, select_single,
    update_transcript, insert_insight.
  run_eff.
  repeat (case_step; run_eff).
  all: eexists; eexists; split; [reflexivity |]; run_eff.
  all: split; [| split; reflexivity].
  all: try apply ops_none.
  all: try (apply ops_one; eapply op_process; eauto; fail).
  all: match goal with
       | H : filter (id_is _ (JString ?s)) _ = [?t] |- _ =>
           destruct (id_is_JString _ _ _ _ H) as [Hin Hid];
           destruct (id_is_selected _ _ _ _ H) as [_ Hsel]
       end.
  all: match goal with
       | H : (_ && _) = true |- _ => apply andb_prop in H as [_ Hchk]
       end.
  all: match goal with
       | H : uuid_of _ _ = Some ?u |- _ =>
           is_var u; assert (Hu : u = id t) by congruence; subst u
       end.
  all: eapply ops_then;
    [ apply ops_one;
      apply (op_process toLowerCase _ (id_is env (JString s)) t
               (random_template env) (random_duration env) (now env));
      assumption |].
  all: refine (op_insight toLowerCase _ (processed _ _ _ t) _
                 (random_confidence env) q _ Hrc _ Hchk);
    [ apply updated_rows_In; [exact Hin | exact Hsel]
    | assumption ].
Qed.

Lemma handleUpload_ops (file : option File) (title_ : jsstring)
    (user : option User) (env : UploadEnv) (w : World) :
  upload_draws_ok env ->
  store_ops toLowerCase (db w)
    (db (snd (handleUpload toLowerCase file title_ user env w))).
Proof.
  intros Hok.
  assert (Hins : forall owner t f,
            existsb (fun t0 => eqb (id t0) (new_id env)) (transcripts (db w))
            = false ->
            store_op toLowerCase (db w)
              (with_transcripts (db w)
                 (transcripts (db w)
                  ++ [{| id := new_id env; user_id := owner; title := t;
                         file_name := f; transcript_text := None;
                         audio_duration := None; processed_at := None |}]))).
  { intros owner t f Hfresh.
    apply (op_insert toLowerCase (db w)
             {| id := new_id env; user_id := owner; title := t;
                file_name := f; transcript_text := None;
                audio_duration := None; processed_at := None |}).
    - repeat split.
    - exact Hfresh. }
  unfold handleUpload, upload_and_process, insert_transcript, upload_object,
    delete_transcript, invoke.
  run_eff.
  repeat (first
            [ match goal with
              | |- context [serve toLowerCase ?req ?senv ?w0] =>
                  let resp := fresh "resp" in
                  let w' := fresh "w'" in
                  let E := fresh "E" in
                  let Hops := fresh "Hops" in
                  assert (Hd : draws_ok senv)
                    by (unfold upload_draws_ok in Hok;
                        match goal with
                        | H : invocation env = Delivered _ |- _ =>
                            rewrite H in Hok; exact Hok
                        end);
                  destruct (serve_ops req senv w0 Hd)
                    as (resp & w' & E & Hops & _ & _);
                  rewrite E; clear E
              end
            | case_step ]; run_eff).
  all: try apply ops_none.
  all: cbn [id] in *.
  all: try (apply ops_one; apply Hins; reflexivity).
  all: try (eapply ops_then;
            [ apply ops_one; apply Hins; reflexivity
            | apply (op_delete toLowerCase (with_transcripts (db w) _)
                       (new_id env)) ]).
  all: try (eapply ops_then;
            [ apply ops_one; apply Hins; reflexivity
            | apply (op_upload toLowerCase
                       (with_transcripts (db w) _)); assumption ]).
  all: try (eapply ops_trans; [| exact Hops];
            eapply ops_then;
            [ apply ops_one; apply Hins; reflexivity
            | apply (op_upload toLowerCase
                       (with_transcripts (db w) _)); assumption ]).
Qed.

(** Every reachable store is reached from the empty one by elementary
    changes. *)
Lemma reachable_ops (s : Store) :
  reachable toLowerCase s -> store_ops toLowerCase empty_store s.
Proof.
  intros Hs. induction Hs as [| s file title_ user env Hs IH Hok
                              | s req env Hs IH Hok].
  - apply ops_none.
  - eapply ops_trans; [exact IH |].
    now apply (handleUpload_ops file title_ user env (initial_world s)).
  - destruct (serve_ops req env (initial_world s) Hok)
      as (resp & w' & E & Hops & _).
    rewrite E. eapply ops_trans; [exact IH | exact Hops].
Qed.

(** A property of the empty store that every elementary change keeps holds
    of every reachable store. *)
Lemma reachable_invariant (Inv : Store -> Prop) :
  Inv empty_store ->
  (forall s s', Inv s -> store_op toLowerCase s s' -> Inv s') ->
  forall s, reachable toLowerCase s -> Inv s.
Proof.
  intros H0 Hstep s Hs. apply reachable_ops in Hs.
  induction Hs as [| s1 s2 s3 _ IH Hop]; [exact H0 |].
  eapply Hstep; [apply IH; exact H0 | exact Hop].
Qed.

End RunsAsOps.

(** ** Invariants of the reachable stores *)

Lemma NoDup_map_filter {A B} (f : A -> B) (g : A -> bool) (l : list A) :
  NoDup (map f l) -> NoDup (map f (filter g l)).
Proof.
  induction l as [| a l IH]; cbn [map filter]; intros H; [constructor |].
  inversion H as [| ? ? Hnotin Hnd]; subst.
  destruct (g a); [| now apply IH].
  cbn [map]. constructor; [| now apply IH].
  intros Hin. apply Hnotin.
  apply in_map_iff in Hin as (x & Hx & Hin).
  apply filter_In in Hin as [Hin _].
  apply in_map_iff. now exists x.
Qed.

Lemma NoDup_snoc {A} (l : list A) (x : A) :
  NoDup l -> ~ In x l -> NoDup (l ++ [x]).
Proof.
  intros Hnd Hx. apply NoDup_app; [exact Hnd | repeat constructor; intros [] |].
  intros a Ha [<- | []]. contradiction.
Qed.

Lemma existsb_eqb_false {A} (key : A -> jsstring) (l : list A) (k : jsstring) :
  existsb (fun x => eqb (key x) k) l = false -> ~ In k (map key l).
Proof.
  intros H Hin. apply in_map_iff in Hin as (x & Hx & Hin).
  assert (Ht : existsb (fun x => eqb (key x) k) l = true).
  { apply existsb_exists. exists x. split; [exact Hin |].
    rewrite Hx. apply eqb_refl. }
  congruence.
Qed.

Section Invariants.

Variable toLowerCase : jsstring -> jsstring.

(** X6. In every reachable store no two transcripts have the same id and no
    two objects of the bucket have the same key. *)
Theorem reachable_keys_unique (s : Store) :
  reachable toLowerCase s ->
  NoDup (map id (transcripts s)) /\ NoDup (map fst (audio_files s)).
Proof.
  apply (reachable_invariant toLowerCase
           (fun s => NoDup (map id (transcripts s))
                     /\ NoDup (map fst (audio_files s)))).
  - split; constructor.
  - intros s1 s2 [Hid Hkey] Hop.
    destruct Hop as [s1 row _ Hfresh | s1 key file Hfresh | s1 tid
                     | s1 selected t r1 r2 at_ _ _ _ | s1 t summary r c _ _ _ _];
      cbn [transcripts audio_files with_transcripts with_audio_files
           with_insights].
    + split; [| exact Hkey]. rewrite map_app. cbn [map].
      apply NoDup_snoc; [exact Hid |].
      now apply (existsb_eqb_false id).
    + split; [exact Hid |]. rewrite map_app. cbn [map fst].
      apply NoDup_snoc; [exact Hkey |].
      now apply (existsb_eqb_false fst).
    + split; [| exact Hkey]. now apply NoDup_map_filter.
    + split; [| exact Hkey]. now rewrite updated_rows_ids.
    + now split.
Qed.

Lemma row_shape_step (s1 s2 : Store) :
  (forall t, In t (transcripts s1) -> unprocessed t \/ fully_processed t) ->
  store_op toLowerCase s1 s2 ->
  forall t, In t (transcripts s2) -> unprocessed t \/ fully_processed t.
Proof.
  intros Hinv Hop.
  destruct Hop as [s1 row Hrow _ | s1 key file _ | s1 tid
                   | s1 selected t0 r1 r2 at_ Hsel Hr1 Hr2
                   | s1 t0 summary r c _ _ _ _];
    cbn [transcripts with_transcripts with_audio_files with_insights];
    intros t Hin.
  - apply in_app_iff in Hin as [Hin | [<- | []]]; [auto | now left].
  - auto.
  - apply filter_In in Hin as [Hin _]. auto.
  - unfold updated_rows in Hin.
    apply in_map_iff in Hin as (t1 & Ht1 & Hin1).
    destruct (selected t1) eqn:Hid; [| subst t; auto].
    assert (Heq : t1 = t0).
    { assert (H : In t1 (filter selected (transcripts s1)))
        by (apply filter_In; auto).
      rewrite Hsel in H. destruct H as [<- | []]. reflexivity. }
    subst t1 t. right. exists r1, r2, at_.
    repeat split; assumption || reflexivity || apply Hr1 || apply Hr2.
  - auto.
Qed.

(** X7. In every reachable store a transcript row is either as the insert
    left it, with [transcript_text], [audio_duration] and [processed_at]
    all null, or as the processing step left it, with all three set, the
    text being the synthesized transcript of the row's own file name. *)
Theorem reachable_row_shape (s : Store) (t : Transcript) :
  reachable toLowerCase s ->
  In t (transcripts s) ->
  unprocessed t \/ fully_processed t.
Proof.
  intros Hs. revert t.
  apply (reachable_invariant toLowerCase
           (fun s => forall t, In t (transcripts s) ->
                               unprocessed t \/ fully_processed t));
    [| | exact Hs].
  - intros t [].
  - exact row_shape_step.
Qed.

(** X8. The list of transcripts prints the duration of a row of a reachable
    store as ['Unknown'] exactly when the row is unprocessed; for a
    processed row it prints between [5m] and [59m], or [1h 0m] to
    [1h 4m]. *)
Theorem reachable_duration_display (s : Store) (t : Transcript) :
  reachable toLowerCase s ->
  In t (transcripts s) ->
  (TranscriptsPage.formatDuration (audio_duration t) = str "Unknown"
   /\ unprocessed t)
  \/ (exists m : Z,
        (5 <= m <= 59)%Z
        /\ TranscriptsPage.formatDuration (audio_duration t)
           = number_to_string m ++ str "m")
  \/ (exists m : Z,
        (0 <= m <= 4)%Z
        /\ TranscriptsPage.formatDuration (audio_duration t)
           = str "1h " ++ number_to_string m ++ str "m").
Proof.
  intros Hs Hin.
  assert (Hshape : unprocessed t \/ fully_processed t).
  { revert t Hin.
    apply (reachable_invariant toLowerCase
             (fun s => forall t, In t (transcripts s) ->
                                 unprocessed t \/ fully_processed t));
      [intros t [] | exact row_shape_step | exact Hs]. }
  destruct Hshape as [Hun | (r1 & r2 & at_ & _ & Hr2 & _ & Hd & _)].
  - left. split; [| exact Hun].
    destruct Hun as (_ & -> & _). reflexivity.
  - right. rewrite Hd.
    destruct (formatDuration_processed_range (random_audio_duration r2)
                (random_audio_duration_range r2 Hr2))
      as [m [(_ & Hm & _ & ->) | (_ & Hm & _ & ->)]].
    + left. now exists m.
    + right. now exists m.
Qed.

(** X9. In every reachable store every insight belongs to a transcript of
    the store, and to the user who owns that transcript. *)
Theorem reachable_insight_owner (s : Store) (i : Insight) :
  reachable toLowerCase s ->
  In i (insights s) ->
  exists t, In t (transcripts s)
            /\ id t = transcript_id i
            /\ user_id t = insight_user_id i.
Proof.
  intros Hs. revert i.
  apply (reachable_invariant toLowerCase
           (fun s => forall i, In i (insights s) ->
                      exists t, In t (transcripts s)
                                /\ id t = transcript_id i
                                /\ user_id t = insight_user_id i));
    [| | exact Hs].
  - intros i [].
  - clear s Hs. intros s1 s2 Hinv Hop.
    destruct Hop as [s1 row _ _ | s1 key file _ | s1 tid
                     | s1 selected t0 r1 r2 at_ _ _ _
                     | s1 t0 summary r c Hin0 _ _ _];
      cbn [transcripts insights with_transcripts with_audio_files
           with_insights];
      intros i Hin.
    + destruct (Hinv i Hin) as (t & Ht & Hids).
      exists t. split; [apply in_or_app; now left | exact Hids].
    + auto.
    + apply filter_In in Hin as [Hin Hkeep].
      destruct (Hinv i Hin) as (t & Ht & Hid & Hown).
      exists t. split; [| now split].
      apply filter_In. split; [exact Ht |]. now rewrite Hid.
    + destruct (Hinv i Hin) as (t & Ht & Hid & Hown).
      exists (if selected t
              then processed
                     (generateMockTranscript (file_name t0) r1) at_
                     (random_audio_duration r2) t
              else t).
      split.
      * unfold updated_rows. apply in_map_iff. now exists t.
      * destruct (selected t); now split.
    + apply in_app_iff in Hin as [Hin | [<- | []]]; [auto |].
      exists t0. now repeat split.
Qed.

(** X10. In every reachable store the key points and the tags of an insight
    are the ones [extractKeyPoints] and [generateTags] derive from its
    summary; so it has at most 8 key points and between 3 and 6 tags. *)
Theorem reachable_insight_content (s : Store) (i : Insight) :
  reachable toLowerCase s ->
  In i (insights s) ->
  key_points i = extractKeyPoints (summary_text i)
  /\ tags i = generateTags toLowerCase (summary_text i)
  /\ (length (key_points i) <= 8)%nat
  /\ (3 <= length (tags i) <= 6)%nat.
Proof.
  intros Hs Hin.
  assert (Hderived : key_points i = extractKeyPoints (summary_text i)
                     /\ tags i = generateTags toLowerCase (summary_text i)).
  { revert i Hin.
    apply (reachable_invariant toLowerCase
             (fun s => forall i, In i (insights s) ->
                key_points i = extractKeyPoints (summary_text i)
                /\ tags i = generateTags toLowerCase (summary_text i)));
      [| | exact Hs].
    - intros i [].
    - clear s Hs. intros s1 s2 Hinv Hop.
      destruct Hop as [s1 row _ _ | s1 key file _ | s1 tid
                       | s1 selected t0 r1 r2 at_ _ _ _
                       | s1 t0 summary r c _ _ _ _];
        cbn [insights with_transcripts with_audio_files with_insights];
        intros i Hin; auto.
      + apply filter_In in Hin as [Hin _]. auto.
      + apply in_app_iff in Hin as [Hin | [<- | []]]; [auto |].
        now split. }
  destruct Hderived as [Hk Ht]. split; [exact Hk |]. split; [exact Ht |].
  rewrite Hk, Ht. split; [apply extractKeyPoints_length |].
  destruct (padded_tags_shape toLowerCase (summary_text i))
    as (rel & k & _ & -> & Hlen).
  unfold slice0 in *. rewrite length_firstn. lia.
Qed.

End Invariants.

(** ** More on [serve] *)

Lemma updated_rows_identity selected text at_ d ts :
  map identity (updated_rows selected text at_ d ts) = map identity ts.
Proof.
  unfold updated_rows. rewrite map_map. apply map_ext.
  intros t. now destruct (selected t).
Qed.

Section ServeOutcomes.

Variable toLowerCase : jsstring -> jsstring.

(** X12. When the transcript cannot be fetched (the select fails, or the
    [transcriptId], as the database reads it, does not select exactly one
    row) the function answers 500 with
    ['Failed to fetch transcript: ...'] after that one select: the store is
    as it was, nothing is updated and the completion endpoint is not
    called. *)
Theorem fetch_failure_is_fatal (req : Request) (env : ServeEnv) (w : World)
    (v : jsvalue) (msg : jsstring) :
  method req <> str "OPTIONS" ->
  body req = BodyJson v ->
  truthy v = true ->
  select_error env (db w) v = Some msg ->
  serve toLowerCase req env w
  = (Ok {| status := 500;
           payload := Failure (str "Failed to fetch transcript: " ++ msg) |},
     {| db := db w; uploading := uploading w; processing := processing w;
        events := events w
                  ++ [Called (SelectTranscript v);
                      ServerLog (str "Error processing audio:")
                        (str "Failed to fetch transcript: " ++ msg)] |}).
Proof.
  intros Hm Hb Hv Hsel.
  unfold serve, process_audio, select_single.
  rewrite (eqb_false _ _ Hm), Hb. run_eff. rewrite Hv. run_eff.
  unfold select_error in Hsel.
  destruct (select_fault env) as [m |].
  - injection Hsel as ->. run_eff. now rewrite <- app_assoc.
  - destruct (filter (id_is env v) (transcripts (db w))) as [| t [| t' l]];
      try discriminate; injection Hsel as <-; run_eff;
      now rewrite <- app_assoc.
Qed.

(** X13. A 500 answer means that nothing was written: whenever [serve]
    answers 500 the store is as it was, and neither the completion endpoint
    nor the insert of an insight was reached. *)
Theorem error_response_changes_nothing (req : Request) (env : ServeEnv)
    (w : World) (resp : Response) :
  fst (serve toLowerCase req env w) = Ok resp ->
  status resp = 500%Z ->
  db (snd (serve toLowerCase req env w)) = db w
  /\ exists evs,
       events (snd (serve toLowerCase req env w)) = events w ++ evs
       /\ existsb completion_event evs = false.
Proof.
  unfold serve, process_audio, request_insights, select_single,
    update_transcript, insert_insight.
  run_eff.
  repeat (case_step; run_eff).
  all: intros [= <-] Hst; try discriminate Hst.
  all: split; [reflexivity |].
  all: rewrite <- ?app_assoc; eexists; split; [reflexivity | reflexivity].
Qed.

Lemma serve_keeps_identity (req : Request) (env : ServeEnv)
    (w : World) :
  map identity (transcripts (db (snd (serve toLowerCase req env w))))
  = map identity (transcripts (db w)).
Proof.
  destruct (serve_effect toLowerCase req env w)
    as (resp & w' & E & _ & _ & _ & _ & Ht & _).
  rewrite E. cbn [snd].
  destruct Ht as [-> | (v & fname & ->)]; [reflexivity |].
  apply updated_rows_identity.
Qed.

(** X14. One run changes no transcript but the ones selected by the
    [transcriptId] of the request, as the database reads it, adds and
    removes none, and leaves the id, the owner, the title and the file name
    of every row as they were; it never touches the bucket. *)
Theorem serve_touches_requested_row_only (req : Request) (env : ServeEnv)
    (w : World) :
  let s' := db (snd (serve toLowerCase req env w)) in
  map identity (transcripts s') = map identity (transcripts (db w))
  /\ audio_files s' = audio_files (db w)
  /\ (forall v t,
        body req = BodyJson v ->
        In t (transcripts (db w)) ->
        id_is env v t = false ->
        In t (transcripts s'))
  /\ (forall msg t,
        body req = BodyThrows msg ->
        In t (transcripts (db w)) -> In t (transcripts s')).
Proof.
  intros s'. subst s'.
  assert (Hkeep : forall v text at_ d t,
            In t (transcripts (db w)) -> id_is env v t = false ->
            In t (updated_rows (id_is env v) text at_ d
                    (transcripts (db w)))).
  { intros v text at_ d t Hin Hid. unfold updated_rows. apply in_map_iff.
    exists t. now rewrite Hid. }
  unfold serve, process_audio, request_insights, select_single,
    update_transcript, insert_insight.
  run_eff.
  repeat (case_step; run_eff).
  all: repeat match goal with
       | |- context [map (fun t0 : Transcript =>
                            if id_is ?e ?v t0 then processed ?a ?b ?c t0
                            else t0) ?ts] =>
           change (map (fun t0 : Transcript =>
                          if id_is e v t0 then processed a b c t0 else t0)
                     ts)
             with (updated_rows (id_is e v) a b c ts)
       end.
  all: repeat split; auto using updated_rows_identity.
  all: try (intros v' t' [= <-] Hin Hid; auto).
  all: try (intros msg' t' Hb; discriminate Hb).
  all: try (intros v' t' Hb; discriminate Hb).
Qed.

(** X15. A run stores at most one insight, and only when the key is
    configured and the completion endpoint answered 2xx with a body that
    could be read; the insight then carries the answer as its summary and
    the key points and tags derived from it, and it belongs to the row
    that the [transcriptId] of the request selects, as the database reads
    it, and to the owner of that row. *)
Theorem insight_only_from_completion (req : Request) (env : ServeEnv)
    (w : World) :
  let s' := db (snd (serve toLowerCase req env w)) in
  insights s' = insights (db w)
  \/ exists st content i,
       key_configured env = true
       /\ completion env = Responded st (Content content)
       /\ response_ok st = true
       /\ insights s' = insights (db w) ++ [i]
       /\ summary_text i = match content with Some c => c | None => [] end
       /\ key_points i = extractKeyPoints (summary_text i)
       /\ tags i = generateTags toLowerCase (summary_text i)
       /\ exists v t,
            body req = BodyJson v
            /\ filter (id_is env v) (transcripts (db w)) = [t]
            /\ transcript_id i = id t
            /\ insight_user_id i = user_id t.
Proof.
  intros s'. subst s'.
  unfold serve, process_audio, request_insights, select_single,
    update_transcript, insert_insight.
  run_eff.
  repeat (case_step; run_eff).
  all: try (left; reflexivity).
  all: right; do 3 eexists.
  all: repeat (split; [eassumption || reflexivity |]).
  all: match goal with
       | H : filter (id_is _ (JString ?text)) _ = [?t] |- _ =>
           destruct (id_is_JString _ _ _ _ H) as [Hin Hid];
           exists (JString text), t
       end.
  all: repeat split; try eassumption; cbn [transcript_id insight_user_id];
    congruence.
Qed.

End ServeOutcomes.

(** ** More on [handleUpload] *)

Lemma existsb_eqb_fresh {A} (key : A -> jsstring) (l : list A) (k : jsstring) :
  ~ In k (map key l) -> existsb (fun x => eqb (key x) k) l = false.
Proof.
  intros H. destruct (existsb _ l) eqn:E; [| reflexivity].
  apply existsb_exists in E as (x & Hin & Heq). apply eqb_eq in Heq.
  elim H. apply in_map_iff. now exists x.
Qed.

Section UploadRuns.

Variable toLowerCase : jsstring -> jsstring.

(** X16. Without a file, a title or a signed-in user, [handleUpload] shows the
    "Missing Information" toast and does nothing else: no call leaves the
    page and the store is as it was. *)
Theorem missing_information (file : option File) (title_ : jsstring)
    (user : option User) (env : UploadEnv) (w : World) :
  file = None \/ title_ = [] \/ user = None ->
  handleUpload toLowerCase file title_ user env w
  = (Ok tt,
     {| db := db w; uploading := uploading w; processing := processing w;
        events := events w
                  ++ [Toast (str "Missing Information")
                        (str "Please select a file and provide a title.")
                        true] |}).
Proof.
  intros H. unfold handleUpload.
  destruct file as [f |], title_ as [| c title_], user as [u |];
    cbn [length Nat.eqb negb]; try reflexivity.
  destruct H as [H | [H | H]]; discriminate.
Qed.

(** X17. When the insert of the transcript is rejected, the run ends there
    with the "Upload Failed" toast: nothing is uploaded, deleted or
    invoked, the page does not navigate, and the store is as it was. *)
Theorem insert_rejected (s : Store) (file : File) (title_ : jsstring)
    (user : User) (env : UploadEnv) (msg : jsstring) :
  title_ <> [] ->
  insert_error env s = Some msg ->
  snd (handleUpload toLowerCase (Some file) title_ (Some user) env
         (initial_world s))
  = {| db := s; uploading := false; processing := false;
       events :=
         [Called InsertTranscript;
          ConsoleError (str "Upload error:")
            (str "Failed to create transcript record: " ++ msg);
          Toast (str "Upload Failed")
            (str "Failed to create transcript record: " ++ msg) true] |}.
Proof.
  intros Htitle Hins.
  unfold handleUpload, upload_and_process, insert_transcript, initial_world.
  rewrite (title_given _ Htitle). run_eff.
  unfold insert_error in Hins.
  destruct (insert_transcript_fault env) as [m |]; run_eff.
  - injection Hins as ->. reflexivity.
  - destruct (existsb _ (transcripts s)); [| discriminate].
    injection Hins as <-. run_eff. reflexivity.
Qed.

Ltac with_serve :=
  match goal with
  | |- context [serve toLowerCase ?req ?senv ?w0] =>
      let resp := fresh "resp" in
      let w' := fresh "w'" in
      let E := fresh "E" in
      destruct (serve_effect toLowerCase req senv w0)
        as (resp & w' & E & ? & ? & ? & ? & ? & ?);
      rewrite E; clear E
  end.

(** X18. A run of [handleUpload] that passes the check of its inputs ends
    with [uploading] and [processing] both false, however it ends; so the
    form is never left locked. *)
Theorem handleUpload_unlocks_form (file : option File) (title_ : jsstring)
    (user : option User) (env : UploadEnv) (w : World) :
  let w' := snd (handleUpload toLowerCase file title_ user env w) in
  (file <> None -> title_ <> [] -> user <> None ->
   uploading w' = false /\ processing w' = false)
  /\ (uploading w = false -> processing w = false ->
      uploading w' = false /\ processing w' = false).
Proof.
  intros w'. subst w'.
  unfold handleUpload, upload_and_process, insert_transcript, upload_object,
    delete_transcript, invoke.
  run_eff.
  repeat (first [with_serve | case_step]; run_eff).
  all: split; [intros Hf Ht Hu | intros Hup Hpr]; try (split; reflexivity).
  all: try (split; assumption).
  all: try contradiction.
  all: try (destruct title_; [contradiction | discriminate]).
  all: cbn [uploading processing] in *; split; congruence.
Qed.

Lemma handleUpload_success (s : Store) (file : File) (title_ : jsstring)
    (user : User) (env : UploadEnv) :
  title_ <> [] ->
  insert_error env s = None ->
  upload_error env s (object_key env user file) = None ->
  let s' := db (snd (handleUpload toLowerCase (Some file) title_ (Some user)
                       env (initial_world s))) in
  map identity (transcripts s')
  = map identity (transcripts s)
      ++ [(new_id env, uid user, trim title_, name file)]
  /\ audio_files s' = audio_files s ++ [(object_key env user file, file)]
  /\ (forall msg, invocation env = NotDelivered msg ->
                  s' = uploaded_store s env user title_ file).
Proof.
  intros Htitle Hins Hup s'. subst s'.
  unfold handleUpload, upload_and_process, insert_transcript, upload_object,
    invoke, initial_world.
  rewrite (title_given _ Htitle). run_eff.
  unfold insert_error in Hins.
  destruct (insert_transcript_fault env); [discriminate |]. run_eff.
  destruct (existsb _ (transcripts s)); [discriminate |]. run_eff.
  unfold upload_error, object_key in Hup. cbn [id].
  destruct (upload_fault env); [discriminate |]. run_eff.
  destruct (existsb _ (audio_files s)); [discriminate |]. run_eff.
  destruct (invocation env) as [msg | senv] eqn:Hinv; run_eff.
  - repeat split; try (now rewrite map_app); intros; reflexivity.
  - match goal with
    | |- context [serve toLowerCase ?r senv ?w0] =>
        change w0 with (uploaded_world s env user title_ file)
    end.
    pose proof (serve_keeps_identity toLowerCase
                  {| method := str "POST";
                     body := BodyJson (JString (new_id env)) |}
                  senv (uploaded_world s env user title_ file)) as Hident.
    destruct (serve_effect toLowerCase
                {| method := str "POST";
                   body := BodyJson (JString (new_id env)) |}
                senv (uploaded_world s env user title_ file))
      as (resp & w' & E & _ & _ & Hfiles & _).
    rewrite E in Hident |- *. cbn [snd] in Hident.
    destruct (response_ok (status resp)); run_eff.
    all: repeat split; try discriminate; try exact Hfiles.
    all: rewrite Hident; cbn [uploaded_world uploaded_store db transcripts
                               with_audio_files with_transcripts];
      now rewrite map_app.
Qed.

(** X19. After a run whose insert and upload succeed, the store holds the
    new row with the signed-in user as owner, the trimmed title and the
    name of the file, and the file under the key
    [{user id}/{transcript id}.{extension}]; the processing step changes
    none of this, and when the function is not reached the row stays
    unprocessed. *)
Theorem uploaded_row_and_object (s : Store) (file : File)
    (title_ : jsstring) (user : User) (env : UploadEnv) :
  title_ <> [] ->
  insert_error env s = None ->
  upload_error env s (object_key env user file) = None ->
  let s' := db (snd (handleUpload toLowerCase (Some file) title_ (Some user)
                       env (initial_world s))) in
  map identity (transcripts s')
  = map identity (transcripts s)
      ++ [(new_id env, uid user, trim title_, name file)]
  /\ audio_files s'
     = audio_files s
         ++ [(uid user ++ str "/" ++ new_id env ++ str "." ++ fileExt file,
              file)]
  /\ (forall msg,
        invocation env = NotDelivered msg ->
        transcripts s'
        = transcripts s
            ++ [{| id := new_id env; user_id := uid user;
                   title := trim title_; file_name := name file;
                   transcript_text := None; audio_duration := None;
                   processed_at := None |}]
        /\ insights s' = insights s).
Proof.
  intros Htitle Hins Hup s'.
  destruct (handleUpload_success s file title_ user env Htitle Hins Hup)
    as (Hrows & Hfiles & Hnd).
  fold s' in Hrows, Hfiles, Hnd.
  split; [exact Hrows |]. split; [exact Hfiles |].
  intros msg Hinv. rewrite (Hnd msg Hinv). split; reflexivity.
Qed.

Lemma object_key_inj (env1 env2 : UploadEnv) (user : User) (file : File) :
  object_key env1 user file = object_key env2 user file ->
  new_id env1 = new_id env2.
Proof.
  unfold object_key. intros H.
  apply app_inv_head in H. apply app_inv_head in H.
  now apply app_inv_tail in H.
Qed.

(** X20. Submitting the same file and title twice gives two rows and two
    objects: with two different new ids, both runs succeeding, the store
    ends with both rows and with the file under two different keys. *)
Theorem two_uploads_two_rows (s : Store) (file : File) (title_ : jsstring)
    (user : User) (env1 env2 : UploadEnv) :
  title_ <> [] ->
  insert_error env1 s = None ->
  upload_error env1 s (object_key env1 user file) = None ->
  insert_error env2 s = None ->
  upload_error env2 s (object_key env2 user file) = None ->
  new_id env1 <> new_id env2 ->
  let s1 := db (snd (handleUpload toLowerCase (Some file) title_ (Some user)
                       env1 (initial_world s))) in
  let s2 := db (snd (handleUpload toLowerCase (Some file) title_ (Some user)
                       env2 (initial_world s1))) in
  map identity (transcripts s2)
  = map identity (transcripts s)
      ++ [(new_id env1, uid user, trim title_, name file);
          (new_id env2, uid user, trim title_, name file)]
  /\ audio_files s2
     = audio_files s
         ++ [(object_key env1 user file, file);
             (object_key env2 user file, file)]
  /\ object_key env1 user file <> object_key env2 user file.
Proof.
  intros Htitle Hins1 Hup1 Hins2 Hup2 Hids s1 s2.
  destruct (handleUpload_success s file title_ user env1 Htitle Hins1 Hup1)
    as (Hrows1 & Hfiles1 & _).
  fold s1 in Hrows1, Hfiles1.
  assert (Hkeys : object_key env1 user file <> object_key env2 user file).
  { intros H. apply Hids. now apply object_key_inj in H. }
  assert (Hins2' : insert_error env2 s1 = None).
  { unfold insert_error in Hins2 |- *.
    destruct (insert_transcript_fault env2); [discriminate |].
    destruct (existsb (fun t => eqb (id t) (new_id env2)) (transcripts s))
      eqn:E; [discriminate |].
    rewrite (existsb_eqb_fresh id); [reflexivity |].
    apply (existsb_eqb_false id) in E.
    replace (map id (transcripts s1))
      with (map (fun x => fst (fst (fst x))) (map identity (transcripts s1)))
      by (rewrite map_map; reflexivity).
    rewrite Hrows1, map_app, map_map. cbn [map fst].
    intros Hin. apply in_app_iff in Hin as [Hin | [Hin | []]].
    - now apply E.
    - now apply Hids. }
  assert (Hup2' : upload_error env2 s1 (object_key env2 user file) = None).
  { unfold upload_error in Hup2 |- *.
    destruct (upload_fault env2); [discriminate |].
    destruct (existsb (fun o => eqb (fst o) (object_key env2 user file))
                (audio_files s)) eqn:E; [discriminate |].
    rewrite (existsb_eqb_fresh fst); [reflexivity |].
    apply (existsb_eqb_false fst) in E.
    rewrite Hfiles1, map_app. cbn [map fst].
    intros Hin. apply in_app_iff in Hin as [Hin | [Hin | []]].
    - now apply E.
    - now apply Hkeys. }
  destruct (handleUpload_success s1 file title_ user env2 Htitle Hins2' Hup2')
    as (Hrows2 & Hfiles2 & _).
  fold s2 in Hrows2, Hfiles2.
  rewrite Hrows2, Hrows1, Hfiles2, Hfiles1, <- !app_assoc.
  repeat split; auto.
Qed.

End UploadRuns.

(** ** The dashboard *)

Section DashboardProperties.

Variable newest_first : list Transcript -> list Transcript.
Hypothesis newest_first_perm : forall l, Permutation (newest_first l) l.

(** X21. The dashboard counts at most five transcripts: its "Total
    Transcripts" is the number of the user's rows capped at 5 (the query
    that feeds it has [limit(5)]), its recent rows are rows of the user,
    its "AI Insights" counts all insights of the user, and the load ends
    with [loading] false and no toast. *)
Theorem dashboard_counts (u : User) (env : DashboardPage.Env) (s : Store)
    (st : DashboardPage.State) :
  DashboardPage.transcripts_fault env = None ->
  DashboardPage.insights_fault env = None ->
  let st' := DashboardPage.fetchDashboardData newest_first (Some u) env s st in
  let shown := DashboardPage.recentTranscripts (DashboardPage.stats st') in
  DashboardPage.totalTranscripts (DashboardPage.stats st')
  = Nat.min 5 (length (filter (DashboardPage.owned_by u) (transcripts s)))
  /\ length shown = DashboardPage.totalTranscripts (DashboardPage.stats st')
  /\ (forall t, In t shown -> In t (transcripts s) /\ user_id t = uid u)
  /\ DashboardPage.totalInsights (DashboardPage.stats st')
     = length (filter (fun i => eqb (insight_user_id i) (uid u)) (insights s))
  /\ DashboardPage.totalDuration (DashboardPage.stats st')
     = TranscriptsPage.totalDuration shown
  /\ DashboardPage.loading st' = false
  /\ DashboardPage.toasts st' = DashboardPage.toasts st.
Proof.
  intros Ht Hi st' shown. subst shown st'.
  unfold DashboardPage.fetchDashboardData. rewrite Ht, Hi.
  cbn [DashboardPage.stats DashboardPage.totalTranscripts
       DashboardPage.recentTranscripts DashboardPage.totalInsights
       DashboardPage.totalDuration DashboardPage.loading
       DashboardPage.toasts].
  unfold DashboardPage.recent_query, DashboardPage.insights_query.
  set (mine := filter (DashboardPage.owned_by u) (transcripts s)).
  assert (Hshown : forall t, In t (firstn 5 (newest_first mine)) ->
                             In t (transcripts s) /\ user_id t = uid u).
  { intros t Hin. apply (slice0_incl 5) in Hin.
    apply (Permutation_in _ (newest_first_perm mine)) in Hin.
    apply filter_In in Hin as [Hin Hown]. split; [exact Hin |].
    now apply eqb_eq in Hown. }
  split.
  { rewrite length_firstn.
    now rewrite (Permutation_length (newest_first_perm mine)). }
  split; [reflexivity |]. split; [exact Hshown |].
  repeat split.
Qed.

(** X22. When one of the two queries of the dashboard fails, the figures stay
    as they were, the error toast is shown and [loading] becomes false;
    without a signed-in user nothing happens at all, [loading] included. *)
Theorem dashboard_load_failure (user : option User)
    (env : DashboardPage.Env) (s : Store) (st : DashboardPage.State) :
  let st' := DashboardPage.fetchDashboardData newest_first user env s st in
  (user = None -> st' = st)
  /\ (user <> None ->
      DashboardPage.transcripts_fault env <> None
      \/ DashboardPage.insights_fault env <> None ->
      DashboardPage.stats st' = DashboardPage.stats st
      /\ DashboardPage.loading st' = false
      /\ DashboardPage.toasts st'
         = DashboardPage.toasts st
           ++ [Toast (str "Error loading dashboard")
                 (str "Failed to load dashboard data. Please try again.")
                 true]).
Proof.
  intros st'. subst st'. unfold DashboardPage.fetchDashboardData.
  split.
  - intros ->. reflexivity.
  - intros Hu Hfault. destruct user as [u |]; [| contradiction].
    destruct (DashboardPage.transcripts_fault env);
      [repeat split |].
    destruct (DashboardPage.insights_fault env);
      [repeat split |].
    destruct Hfault as [H | H]; contradiction.
Qed.

End DashboardProperties.

(** ** Tags and key points *)

Lemma additional_not_common (tag : jsstring) :
  In tag commonBusinessTags -> ~ In tag additionalTags.
Proof.
  intros Hc. apply (NoDup_app_disjoint _ _ tag tag_vocabulary_NoDup Hc).
Qed.

(** X23. [generateTags] returns a filler tag exactly when fewer than three
    business terms match: then it returns the matching terms followed by
    fillers, three tags in all, ['business-model'] among them; otherwise it
    returns the first six matching terms and no filler. *)
Theorem fillers_only_when_few_match (toLowerCase : jsstring -> jsstring)
    (aiSummary : jsstring) :
  let matched :=
    filter (tag_matches (toLowerCase aiSummary)) commonBusinessTags in
  let result := generateTags toLowerCase aiSummary in
  ((length matched < 3)%nat ->
   result = matched ++ firstn (3 - length matched) additionalTags
   /\ length result = 3%nat
   /\ In (str "business-model") result)
  /\ ((3 <= length matched)%nat ->
      result = firstn 6 matched
      /\ forall tag, In tag result -> ~ In tag additionalTags)
  /\ ((exists tag, In tag result /\ In tag additionalTags)
      <-> (length matched < 3)%nat).
Proof.
  intros matched result.
  assert (Hfew : (length matched < 3)%nat ->
            result = matched ++ firstn (3 - length matched) additionalTags
            /\ length result = 3%nat
            /\ In (str "business-model") result).
  { intros Hlt. subst result. unfold generateTags. fold matched.
    apply Nat.ltb_lt in Hlt as Hb. rewrite Hb. unfold slice0.
    assert (Hlen : length (matched
                           ++ firstn (3 - length matched) additionalTags)
                   = 3%nat).
    { rewrite length_app, length_firstn.
      change (length additionalTags) with 3%nat. lia. }
    rewrite firstn_all2 by lia.
    split; [reflexivity |]. split; [exact Hlen |].
    apply in_or_app. right.
    destruct (3 - length matched)%nat as [| n] eqn:E; [lia |].
    now left. }
  assert (Hmany : (3 <= length matched)%nat ->
            result = firstn 6 matched
            /\ forall tag, In tag result -> ~ In tag additionalTags).
  { intros Hge. subst result. unfold generateTags. fold matched.
    apply Nat.ltb_ge in Hge as Hb. rewrite Hb. unfold slice0.
    split; [reflexivity |].
    intros tag Hin. apply additional_not_common.
    apply (slice0_incl 6) in Hin. subst matched.
    now apply filter_In in Hin as [Hin _]. }
  split; [exact Hfew |]. split; [exact Hmany |].
  split.
  - intros (tag & Hin & Hadd).
    destruct (Nat.lt_ge_cases (length matched) 3) as [Hlt | Hge];
      [exact Hlt |].
    destruct (Hmany Hge) as [_ Hno]. now elim (Hno tag Hin).
  - intros Hlt. exists (str "business-model").
    split; [apply (Hfew Hlt) |]. now left.
Qed.

Lemma fillers_only_when_few_match_witness :
  generateTags ascii_toLowerCase (str "Revenue growth is strong")
  = map str ["growth"; "revenue"; "business-model"]%string.
Proof.
  destruct (fillers_only_when_few_match ascii_toLowerCase
              (str "Revenue growth is strong")) as (Hfew & _ & _).
  destruct Hfew as (-> & _ & _); [vm_compute; lia |].
  vm_compute. reflexivity.
Defined.

Lemma includes_single_false (s : jsstring) (c : N) :
  includes s [c] = false -> ~ In c s.
Proof.
  induction s as [| a s IH]; [intros _ [] |].
  cbn [includes startsWith].
  replace (startsWith s []) with true by (now destruct s).
  rewrite andb_true_r.
  intros H. apply orb_false_iff in H as [Hca Hrest].
  intros [-> | Hin].
  - now rewrite N.eqb_refl in Hca.
  - now apply IH.
Qed.

Lemma has_bullet_false (line : jsstring) (c : N) :
  has_bullet line = false -> In c line -> marker c = false.
Proof.
  unfold has_bullet, marker. intros H Hin.
  apply orb_false_iff in H as [H Hast]. apply orb_false_iff in H as [Hbul Hhyp].
  apply includes_single_false in Hbul, Hhyp, Hast.
  destruct (N.eqb c bullet) eqn:E1; [apply N.eqb_eq in E1; congruence |].
  destruct (N.eqb c hyphen) eqn:E2; [apply N.eqb_eq in E2; congruence |].
  destruct (N.eqb c asterisk) eqn:E3; [apply N.eqb_eq in E3; congruence |].
  reflexivity.
Qed.

Lemma trimStart_incl (s : jsstring) (c : N) :
  In c (trimStart s) -> In c s.
Proof.
  induction s as [| a s IH]; cbn [trimStart]; [auto |].
  destruct (is_space a); [right; auto | auto].
Qed.

Lemma trim_incl (s : jsstring) (c : N) : In c (trim s) -> In c s.
Proof.
  unfold trim, trimEnd. intros H.
  apply in_rev in H. apply trimStart_incl in H. apply in_rev in H.
  now apply trimStart_incl.
Qed.

Lemma trimStart_nil_spaces (s : jsstring) :
  trimStart s = [] -> forall c, In c s -> is_space c = true.
Proof.
  induction s as [| a s IH]; cbn [trimStart]; [intros _ c [] |].
  destruct (is_space a) eqn:E; [| discriminate].
  intros H c [<- | Hin]; auto.
Qed.

Lemma trimStart_split (s : jsstring) (c : N) :
  In c s -> is_space c = true \/ In c (trimStart s).
Proof.
  induction s as [| a s IH]; cbn [trimStart]; [intros [] |].
  destruct (is_space a) eqn:E.
  - intros [<- | Hin]; [now left | auto].
  - now right.
Qed.

Lemma trim_nil_spaces (s : jsstring) :
  trim s = [] -> forall c, In c s -> is_space c = true.
Proof.
  unfold trim, trimEnd. intros H c Hin.
  assert (H' : trimStart (rev (trimStart s)) = []).
  { destruct (trimStart (rev (trimStart s))) as [| a l]; [reflexivity |].
    cbn [rev] in H. apply app_eq_nil in H as [_ H]. discriminate. }
  destruct (trimStart_split s c Hin) as [Hsp | Hin']; [exact Hsp |].
  apply (trimStart_nil_spaces _ H'). now apply in_rev in Hin'.
Qed.

Lemma removeAll_markers (s : jsstring) (c : N) :
  In c (removeAll [bullet; hyphen; asterisk] s) -> marker c = false.
Proof.
  unfold removeAll. intros H. apply filter_In in H as [_ H].
  apply negb_true_iff in H. cbn [existsb] in H. unfold marker.
  destruct (N.eqb c bullet), (N.eqb c hyphen), (N.eqb c asterisk);
    try discriminate H; reflexivity.
Qed.

Lemma split_piece_incl (sep : N) (s piece : jsstring) (c : N) :
  In piece (split sep s) -> In c piece -> In c s.
Proof.
  revert piece. induction s as [| a s IH]; cbn [split]; intros piece Hp Hc.
  - destruct Hp as [<- | []]. contradiction.
  - destruct (N.eqb a sep).
    + destruct Hp as [<- | Hp]; [contradiction |]. right. eauto.
    + destruct (split sep s) as [| w ws] eqn:Es.
      * destruct Hp as [<- | []]. destruct Hc as [<- | []]. now left.
      * destruct Hp as [<- | Hp].
        -- destruct Hc as [<- | Hc]; [now left |].
           right. apply (IH w); [now left | exact Hc].
        -- right. apply (IH piece); [now right | exact Hc].
Qed.

Lemma split_covers (sep : N) (s : jsstring) (c : N) :
  In c s -> c = sep \/ exists piece, In piece (split sep s) /\ In c piece.
Proof.
  induction s as [| a s IH]; [intros [] |].
  cbn [split]. intros [<- | Hin].
  - destruct (N.eqb a sep) eqn:E; [left; now apply N.eqb_eq |].
    right. destruct (split sep s) as [| w ws].
    + exists [a]. split; now left.
    + exists (a :: w). split; now left.
  - destruct (IH Hin) as [-> | (piece & Hp & Hc)]; [now left |].
    right. destruct (N.eqb a sep).
    + exists piece. split; [now right | exact Hc].
    + destruct (split sep s) as [| w ws]; [contradiction |].
      destruct Hp as [<- | Hp].
      * exists (a :: w). split; [now left | now right].
      * exists piece. split; [now right | exact Hc].
Qed.

Lemma scan_line_markers (acc : list jsstring) (line : jsstring) :
  Forall (fun kp => forall c, In c kp -> marker c = false) acc ->
  Forall (fun kp => forall c, In c kp -> marker c = false)
         (scan_line acc line).
Proof.
  intros Hacc. unfold scan_line.
  destruct (has_bullet line) eqn:Hb.
  - apply Forall_app. split; [exact Hacc |].
    constructor; [| constructor].
    intros c Hc. apply trim_incl in Hc. now apply removeAll_markers in Hc.
  - destruct (_ && _); [| exact Hacc].
    apply Forall_app. split; [exact Hacc |].
    constructor; [| constructor].
    intros c Hc. apply trim_incl in Hc. now apply (has_bullet_false line).
Qed.

Lemma scan_lines_markers (lines acc : list jsstring) :
  Forall (fun kp => forall c, In c kp -> marker c = false) acc ->
  Forall (fun kp => forall c, In c kp -> marker c = false)
         (fold_left scan_line lines acc).
Proof.
  revert acc. induction lines as [| l lines IH]; intros acc Hacc;
    cbn [fold_left]; [exact Hacc |].
  apply IH. now apply scan_line_markers.
Qed.

Lemma scan_lines_nil (lines acc : list jsstring) :
  fold_left scan_line lines acc = [] ->
  acc = [] /\ Forall (fun line => has_bullet line = false) lines.
Proof.
  revert acc. induction lines as [| l lines IH]; intros acc H;
    cbn [fold_left] in H; [split; [exact H | constructor] |].
  destruct (IH _ H) as [Hl Hrest].
  unfold scan_line in Hl.
  destruct (has_bullet l) eqn:Hb.
  - now destruct acc.
  - destruct (_ && _); [now destruct acc |].
    split; [exact Hl | now constructor].
Qed.

(** X24. No key point returned by [extractKeyPoints] contains one of the
    bullet markers ['•'], ['-'] and ['*'], whether it comes from the scan of
    the lines or from the fallback on sentences. *)
Theorem key_points_have_no_markers (aiSummary kp : jsstring) (c : N) :
  In kp (extractKeyPoints aiSummary) ->
  In c kp ->
  c <> bullet /\ c <> hyphen /\ c <> asterisk.
Proof.
  intros Hkp Hc.
  assert (Hm : marker c = false).
  { unfold extractKeyPoints in Hkp.
    destruct (length _ =? 0) eqn:Hlen.
    - apply Nat.eqb_eq in Hlen. apply length_zero_iff_nil in Hlen.
      apply scan_lines_nil in Hlen as [_ Hlines].
      rewrite Forall_forall in Hlines.
      assert (Hsummary : forall x, In x aiSummary -> marker x = false).
      { intros x Hx.
        destruct (split_covers newline aiSummary x Hx)
          as [-> | (line & Hline & Hxl)]; [reflexivity |].
        destruct (0 <? length (trim line)) eqn:Hblank.
        - apply (has_bullet_false line); [| exact Hxl].
          apply Hlines. apply filter_In. now split.
        - apply Nat.ltb_ge in Hblank.
          assert (Ht : trim line = [])
            by (apply length_zero_iff_nil; lia).
          pose proof (trim_nil_spaces line Ht x Hxl) as Hsp.
          unfold marker.
          destruct (N.eqb x bullet) eqn:E1;
            [apply N.eqb_eq in E1; subst x; discriminate Hsp |].
          destruct (N.eqb x hyphen) eqn:E2;
            [apply N.eqb_eq in E2; subst x; discriminate Hsp |].
          destruct (N.eqb x asterisk) eqn:E3;
            [apply N.eqb_eq in E3; subst x; discriminate Hsp |].
          reflexivity. }
      apply in_map_iff in Hkp as (sentence & <- & Hs).
      apply (slice0_incl 5) in Hs. apply filter_In in Hs as [Hs _].
      apply in_app_iff in Hc as [Hc | [<- | []]]; [| reflexivity].
      apply trim_incl in Hc. apply Hsummary.
      now apply (split_piece_incl full_stop aiSummary sentence).
    - apply (slice0_incl 8) in Hkp.
      pose proof (scan_lines_markers
                    (filter (fun line => 0 <? length (trim line))
                            (split newline aiSummary)) []
                    (Forall_nil _)) as Hall.
      rewrite Forall_forall in Hall. now apply (Hall kp). }
  unfold marker in Hm.
  apply orb_false_iff in Hm as [Hm H3]. apply orb_false_iff in Hm as [H1 H2].
  repeat split; now apply N.eqb_neq.
Qed.

Lemma key_points_have_no_markers_witness :
  82%N <> bullet /\ 82%N <> hyphen /\ 82%N <> asterisk.
Proof.
  apply (key_points_have_no_markers (str "- Revenue growth is strong")
           (str "Revenue growth is strong") 82%N).
  - vm_compute. now left.
  - vm_compute. now left.
Defined.

(** ** The properties on sample runs *)

Lemma sample2_reachable : reachable ascii_toLowerCase Sample2.processed_store.
Proof. exact sample_processed_reachable. Qed.

Lemma sample2_row :
  exists t, transcripts Sample2.processed_store = [t].
Proof. eexists. vm_compute. reflexivity. Qed.

Lemma reachable_keys_unique_witness :
  NoDup (map id (transcripts Sample2.processed_store))
  /\ NoDup (map fst (audio_files Sample2.processed_store)).
Proof.
  exact (reachable_keys_unique ascii_toLowerCase Sample2.processed_store
           sample2_reachable).
Defined.

Lemma reachable_row_shape_witness :
  exists t, In t (transcripts Sample2.processed_store)
            /\ (unprocessed t \/ fully_processed t).
Proof.
  destruct sample2_row as [t E]. exists t.
  assert (Hin : In t (transcripts Sample2.processed_store))
    by (rewrite E; now left).
  split; [exact Hin |].
  exact (reachable_row_shape ascii_toLowerCase Sample2.processed_store t
           sample2_reachable Hin).
Defined.

Lemma reachable_duration_display_witness :
  exists t,
    In t (transcripts Sample2.processed_store)
    /\ ((TranscriptsPage.formatDuration (audio_duration t) = str "Unknown"
         /\ unprocessed t)
        \/ (exists m : Z,
              (5 <= m <= 59)%Z
              /\ TranscriptsPage.formatDuration (audio_duration t)
                 = number_to_string m ++ str "m")
        \/ (exists m : Z,
              (0 <= m <= 4)%Z
              /\ TranscriptsPage.formatDuration (audio_duration t)
                 = str "1h " ++ number_to_string m ++ str "m")).
Proof.
  destruct sample2_row as [t E]. exists t.
  assert (Hin : In t (transcripts Sample2.processed_store))
    by (rewrite E; now left).
  split; [exact Hin |].
  exact (reachable_duration_display ascii_toLowerCase
           Sample2.processed_store t sample2_reachable Hin).
Defined.

Lemma sample2_insight :
  exists i, insights Sample2.processed_store = [i].
Proof. eexists. vm_compute. reflexivity. Qed.

Lemma reachable_insight_owner_witness :
  exists i t,
    In i (insights Sample2.processed_store)
    /\ In t (transcripts Sample2.processed_store)
    /\ id t = transcript_id i
    /\ user_id t = insight_user_id i.
Proof.
  destruct sample2_insight as [i E]. exists i.
  assert (Hin : In i (insights Sample2.processed_store))
    by (rewrite E; now left).
  destruct (reachable_insight_owner ascii_toLowerCase
              Sample2.processed_store i sample2_reachable Hin)
    as (t & Ht & Hid & Hown).
  exists t. split; [exact Hin |]. split; [exact Ht |].
  split; [exact Hid | exact Hown].
Defined.

Lemma reachable_insight_content_witness :
  exists i,
    In i (insights Sample2.processed_store)
    /\ key_points i = extractKeyPoints (summary_text i)
    /\ tags i = generateTags ascii_toLowerCase (summary_text i)
    /\ (length (key_points i) <= 8)%nat
    /\ (3 <= length (tags i) <= 6)%nat.
Proof.
  destruct sample2_insight as [i E]. exists i.
  assert (Hin : In i (insights Sample2.processed_store))
    by (rewrite E; now left).
  split; [exact Hin |].
  exact (reachable_insight_content ascii_toLowerCase
           Sample2.processed_store i sample2_reachable Hin).
Defined.

Lemma failed_badge_unreachable_witness :
  exists t, In t (transcripts Sample2.processed_store)
            /\ getStatusBadge t <> Failed.
Proof.
  destruct sample2_row as [t E]. exists t.
  assert (Hin : In t (transcripts Sample2.processed_store))
    by (rewrite E; now left).
  split; [exact Hin |].
  exact (failed_badge_unreachable ascii_toLowerCase
           Sample2.processed_store t sample2_reachable Hin).
Defined.

Lemma post_is_not_preflight (v : jsvalue) :
  method (Sample.post v) <> str "OPTIONS".
Proof. intros H. vm_compute in H. discriminate. Qed.

Lemma fetch_failure_is_fatal_witness :
  serve ascii_toLowerCase (Sample.post (JString (str "t-9")))
    Sample.serve_env (initial_world Sample.one_row)
  = (Ok {| status := 500;
           payload :=
             Failure (str "Failed to fetch transcript: " ++ str "rejected") |},
     {| db := Sample.one_row; uploading := false; processing := false;
        events := [Called (SelectTranscript (JString (str "t-9")));
                   ServerLog (str "Error processing audio:")
                     (str "Failed to fetch transcript: "
                      ++ str "rejected")] |}).
Proof.
  apply (fetch_failure_is_fatal ascii_toLowerCase
           (Sample.post (JString (str "t-9"))) Sample.serve_env
           (initial_world Sample.one_row) (JString (str "t-9"))
           (str "rejected")).
  - apply post_is_not_preflight.
  - reflexivity.
  - reflexivity.
  - reflexivity.
Defined.

Lemma error_response_changes_nothing_witness :
  db (snd (serve ascii_toLowerCase (Sample.post (JString (str "t-9")))
             Sample.serve_env (initial_world Sample.one_row)))
  = Sample.one_row.
Proof.
  apply (error_response_changes_nothing ascii_toLowerCase
           (Sample.post (JString (str "t-9"))) Sample.serve_env
           (initial_world Sample.one_row)
           {| status := 500;
              payload :=
                Failure (str "Failed to fetch transcript: "
                         ++ str "rejected") |}).
  - vm_compute. reflexivity.
  - reflexivity.
Defined.

Lemma serve_touches_requested_row_only_witness :
  In Sample.row
     (transcripts
        (db (snd (serve ascii_toLowerCase
                    (Sample.post (JString (str "t-9"))) Sample.serve_env
                    (initial_world Sample.one_row))))).
Proof.
  destruct (serve_touches_requested_row_only ascii_toLowerCase
              (Sample.post (JString (str "t-9"))) Sample.serve_env
              (initial_world Sample.one_row)) as (_ & _ & Hkeep & _).
  apply (Hkeep (JString (str "t-9")) Sample.row).
  - reflexivity.
  - now left.
  - vm_compute. reflexivity.
Defined.

Lemma insight_only_from_completion_witness :
  let run := serve ascii_toLowerCase (Sample.post (JString (str "T-1")))
               Sample.serve_env (initial_world Sample.one_row) in
  exists i,
    insights (db (snd run)) = [i]
    /\ transcript_id i = str "t-1"
    /\ insight_user_id i = str "u-1".
Proof.
  intros run.
  destruct (insight_only_from_completion ascii_toLowerCase
              (Sample.post (JString (str "T-1"))) Sample.serve_env
              (initial_world Sample.one_row))
    as [Hsame
       | (st & content & i & _ & _ & _ & Hins & _ & _ & _
          & v & t & Hb & Hsel & Hid & Hown)].
  - vm_compute in Hsame. discriminate Hsame.
  - exists i. fold run in Hins. split; [exact Hins |].
    injection Hb as <-.
    vm_compute in Hsel. injection Hsel as <-.
    split; [exact Hid | exact Hown].
Defined.

Lemma missing_information_witness :
  handleUpload ascii_toLowerCase (Some Sample.file) [] (Some Sample.user)
    Sample.upload_env (initial_world Sample.one_row)
  = (Ok tt,
     {| db := Sample.one_row; uploading := false; processing := false;
        events := [Toast (str "Missing Information")
                     (str "Please select a file and provide a title.")
                     true] |}).
Proof.
  apply (missing_information ascii_toLowerCase (Some Sample.file) []
           (Some Sample.user) Sample.upload_env
           (initial_world Sample.one_row)).
  right. now left.
Defined.

Lemma insert_rejected_witness :
  snd (handleUpload ascii_toLowerCase (Some Sample.file) (str "Interview A")
         (Some Sample.user) Sample2.refused_env (initial_world empty_store))
  = {| db := empty_store; uploading := false; processing := false;
       events :=
         [Called InsertTranscript;
          ConsoleError (str "Upload error:")
            (str "Failed to create transcript record: "
             ++ str "row-level security");
          Toast (str "Upload Failed")
            (str "Failed to create transcript record: "
             ++ str "row-level security") true] |}.
Proof.
  apply (insert_rejected ascii_toLowerCase empty_store Sample.file
           (str "Interview A") Sample.user Sample2.refused_env
           (str "row-level security")).
  - discriminate.
  - reflexivity.
Defined.

Lemma handleUpload_unlocks_form_witness :
  let w' := snd (handleUpload ascii_toLowerCase (Some Sample.file)
                   (str "Interview A") (Some Sample.user) Sample.offline_env
                   (initial_world empty_store)) in
  uploading w' = false /\ processing w' = false.
Proof.
  intros w'.
  apply (proj1 (handleUpload_unlocks_form ascii_toLowerCase
                  (Some Sample.file) (str "Interview A")
                  (Some Sample.user) Sample.offline_env
                  (initial_world empty_store))); discriminate.
Defined.

Lemma uploaded_row_and_object_witness :
  let s' := db (snd (handleUpload ascii_toLowerCase (Some Sample.file)
                       (str " Interview A ") (Some Sample.user)
                       Sample.unprocessed_env (initial_world empty_store))) in
  map identity (transcripts s')
  = [(str "t-1", str "u-1", str "Interview A", str "Interview_A.mp3")]
  /\ map fst (audio_files s') = [str "u-1/t-1.mp3"]
  /\ map transcript_text (transcripts s') = [None].
Proof.
  intros s'.
  destruct (uploaded_row_and_object ascii_toLowerCase empty_store Sample.file
              (str " Interview A ") Sample.user Sample.unprocessed_env)
    as (Hrows & Hfiles & Hnd).
  - discriminate.
  - reflexivity.
  - reflexivity.
  - fold s' in Hrows, Hfiles, Hnd.
    destruct (Hnd (str "Failed to fetch") eq_refl) as [Hts _].
    rewrite Hrows, Hfiles, Hts.
    split; [vm_compute; reflexivity |].
    split; [vm_compute; reflexivity | reflexivity].
Defined.

Lemma two_uploads_two_rows_witness :
  let s1 := db (snd (handleUpload ascii_toLowerCase (Some Sample.file)
                       (str "Interview A") (Some Sample.user)
                       Sample.unprocessed_env (initial_world empty_store))) in
  let s2 := db (snd (handleUpload ascii_toLowerCase (Some Sample.file)
                       (str "Interview A") (Some Sample.user)
                       Sample2.second_env (initial_world s1))) in
  map id (transcripts s2) = [str "t-1"; str "t-2"]
  /\ map fst (audio_files s2) = [str "u-1/t-1.mp3"; str "u-1/t-2.mp3"].
Proof.
  intros s1 s2.
  destruct (two_uploads_two_rows ascii_toLowerCase empty_store Sample.file
              (str "Interview A") Sample.user Sample.unprocessed_env
              Sample2.second_env) as (Hrows & Hfiles & _).
  - discriminate.
  - reflexivity.
  - reflexivity.
  - reflexivity.
  - reflexivity.
  - intros H. vm_compute in H. discriminate.
  - fold s1 s2 in Hrows, Hfiles. split.
    + replace (map id (transcripts s2))
        with (map (fun x => fst (fst (fst x)))
                  (map identity (transcripts s2)))
        by (rewrite map_map; reflexivity).
      rewrite Hrows. reflexivity.
    + rewrite Hfiles. reflexivity.
Defined.

Lemma rev_is_permutation (l : list Transcript) : Permutation (rev l) l.
Proof. apply Permutation_sym, Permutation_rev. Qed.

Lemma dashboard_counts_witness :
  let st' := DashboardPage.fetchDashboardData (@rev Transcript)
               (Some Sample.user) Sample2.dashboard_env
               Sample2.processed_store DashboardPage.initial in
  DashboardPage.totalTranscripts (DashboardPage.stats st') = 1%nat
  /\ DashboardPage.totalInsights (DashboardPage.stats st') = 1%nat
  /\ DashboardPage.totalDuration (DashboardPage.stats st') = 3675%Z
  /\ DashboardPage.loading st' = false.
Proof.
  intros st'.
  destruct (dashboard_counts (@rev Transcript) rev_is_permutation Sample.user
              Sample2.dashboard_env Sample2.processed_store
              DashboardPage.initial eq_refl eq_refl)
    as (Hn & _ & _ & Hi & Hd & Hl & _).
  fold st' in Hn, Hi, Hd, Hl.
  rewrite Hn, Hi, Hl.
  split; [vm_compute; reflexivity |].
  split; [vm_compute; reflexivity |].
  split; [vm_compute; reflexivity | reflexivity].
Defined.

Lemma dashboard_load_failure_witness :
  let st' := DashboardPage.fetchDashboardData (@rev Transcript)
               (Some Sample.user) Sample2.dashboard_down
               Sample2.processed_store DashboardPage.initial in
  DashboardPage.stats st' = DashboardPage.stats DashboardPage.initial
  /\ DashboardPage.loading st' = false.
Proof.
  intros st'.
  destruct (dashboard_load_failure (@rev Transcript) (Some Sample.user)
              Sample2.dashboard_down Sample2.processed_store
              DashboardPage.initial) as [_ H].
  destruct H as (Hs & Hl & _).
  - discriminate.
  - left. discriminate.
  - fold st' in Hs, Hl. now split.
Defined.
